(** * The world-ranking handler of the aim trainer, over a model of its store

    The source is [api/ranking.js] in its latest revision (the last of the
    revisions kept in [src/api/test-ranking.js], lines 765-1514): one
    serverless [handler] that answers GET (fetch a mode's ranking), POST
    (submit a score), DELETE (delete one score, or reset every ranking) and
    PUT (edit a score) by issuing Redis commands to an Upstash store through
    [upstashCommand].

    The development has three layers, in the order of the file:
    - [JS]: the JavaScript built-ins the handler calls ([JSON.stringify],
      [JSON.parse], [parseInt], truthiness, property access, [<=]), and the
      numbers it ranks by, integers and the infinities that [parseInt]
      overflows to;
    - [Redis]: the commands the handler issues, over a store of string keys
      holding either a string or a sorted set;
    - the handler's branches ([fetch], [submit], [reset_all]) in a small
      state-and-exception monad, then the properties. *)

From Stdlib Require Import ZArith String Ascii List Decimal DecimalString.
From Stdlib Require Import DecimalFacts DecimalPos DecimalN DecimalZ OrdersEx Lia.
From stdpp Require Import gmap strings list fin_maps sorting.

Set Warnings "-register-all,-notation-for-abbreviation".
Local Open Scope Z_scope.

(** ** JavaScript values and built-ins *)

Module JS.

(** A JSON value. A number is kept as a decimal [m / 10^k]; the integers the
    handler ranks by are the numbers with [k = 0]. Numbers are idealised:
    no rounding to a double, and they print in plain decimal notation. An
    object is its list of properties in insertion order. *)
Inductive json : Type :=
| JNull
| JBool (b : bool)
| JNum (m : Z) (k : nat)
| JStr (s : string)
| JArr (l : list json)
| JObj (fs : list (string * json)).

(** [undefined] is [None]. *)
Notation jsval := (option json).

Definition JInt (z : Z) : json := JNum z 0.

(** *** Characters *)

Definition is_digit (c : ascii) : bool :=
  let n := nat_of_ascii c in (48 <=? n)%nat && (n <=? 57)%nat.

(** WhiteSpace of the JSON grammar: space, tab, line feed, carriage return. *)
Definition is_ws (c : ascii) : bool :=
  let n := nat_of_ascii c in
  (n =? 32)%nat || (n =? 9)%nat || (n =? 10)%nat || (n =? 13)%nat.

(** StrWhiteSpaceChar of [parseInt] and [Number]: JSON's four and also the
    vertical tab and the form feed (single-byte ones only). *)
Definition is_str_ws (c : ascii) : bool :=
  let n := nat_of_ascii c in is_ws c || (n =? 11)%nat || (n =? 12)%nat.

Fixpoint skip (p : ascii -> bool) (s : string) : string :=
  match s with
  | String c r => if p c then skip p r else s
  | EmptyString => s
  end.

(** The longest prefix of decimal digits, and what follows it. *)
Fixpoint span_digits (s : string) : string * string :=
  match s with
  | String c r =>
      if is_digit c then let '(ds, rest) := span_digits r in (String c ds, rest)
      else (EmptyString, s)
  | EmptyString => (EmptyString, EmptyString)
  end.

Definition digits_value (ds : string) : Z :=
  match NilEmpty.uint_of_string ds with
  | Some d => Z.of_uint d
  | None => 0
  end.

Definition hex_value (c : ascii) : option Z :=
  let n := Z.of_nat (nat_of_ascii c) in
  if (48 <=? n) && (n <=? 57) then Some (n - 48)
  else if (97 <=? n) && (n <=? 102) then Some (n - 87)
  else if (65 <=? n) && (n <=? 70) then Some (n - 55)
  else None.

Definition hex_char (n : Z) : ascii :=
  ascii_of_nat (Z.to_nat (if n <? 10 then 48 + n else 87 + n)).

Fixpoint span_hex (s : string) (acc : Z) : option Z :=
  match s with
  | String c r =>
      match hex_value c with
      | Some d => match span_hex r (16 * acc + d) with
                  | Some v => Some v
                  | None => Some (16 * acc + d)
                  end
      | None => None
      end
  | EmptyString => None
  end.

(** *** Numbers *)

(** Trailing zeros of the fraction are not part of the number. *)
Fixpoint num_norm (m : Z) (k : nat) : Z * nat :=
  match k with
  | O => (m, O)
  | S k' => if m mod 10 =? 0 then num_norm (m / 10) k' else (m, k)
  end.

Definition digit_char (d : Z) : ascii := ascii_of_nat (48 + Z.to_nat (d mod 10)).

Fixpoint frac_digits (k : nat) (r : Z) : string :=
  match k with
  | O => EmptyString
  | S k' => String (digit_char (r / 10 ^ Z.of_nat k'))
                   (frac_digits k' (r mod 10 ^ Z.of_nat k'))
  end.

Definition print_int (z : Z) : string := NilZero.string_of_int (Z.to_int z).

(** Number::toString, radix 10. *)
Definition print_num (m : Z) (k : nat) : string :=
  let '(m, k) := num_norm m k in
  match k with
  | O => print_int m
  | S _ =>
      let a := Z.abs m in
      (if m <? 0 then "-" else EmptyString)
        +:+ print_int (a / 10 ^ Z.of_nat k) +:+ "."
        +:+ frac_digits k (a mod 10 ^ Z.of_nat k)
  end.

Definition leading_zero (ds : string) : bool :=
  match ds with
  | String "0" (String _ _) => true
  | _ => false
  end.

Definition is_empty (s : string) : bool :=
  match s with EmptyString => true | _ => false end.

Definition make_num (neg : bool) (ip fp : string) (e : Z) : json :=
  let m0 := digits_value (ip +:+ fp) in
  let m1 := if neg then - m0 else m0 in
  let scale := Z.of_nat (String.length fp) - e in
  let '(m, k) := if scale <=? 0 then (m1 * 10 ^ (- scale), O)
                 else num_norm m1 (Z.to_nat scale) in
  JNum m k.

(** A JSON number literal at the head of [s]: an optional minus sign, an
    integer part with no leading zero, an optional fraction (a dot and at
    least one digit) and an optional exponent ([e] or [E], an optional sign
    and at least one digit). *)
Definition parse_number (s : string) : option (json * string) :=
  let '(neg, s1) := match s with
                    | String "-" r => (true, r)
                    | _ => (false, s)
                    end in
  let '(ip, s2) := span_digits s1 in
  if is_empty ip || leading_zero ip then None else
  let frac := match s2 with
              | String "." r =>
                  let '(fp, s3) := span_digits r in
                  if is_empty fp then None else Some (fp, s3)
              | _ => Some (EmptyString, s2)
              end in
  match frac with
  | None => None
  | Some (fp, s3) =>
      let exp (eneg : bool) (r : string) :=
        let '(ds, s4) := span_digits r in
        if is_empty ds then None
        else Some (if eneg then - digits_value ds else digits_value ds, s4) in
      let ex := match s3 with
                | String "e" (String "-" r) | String "E" (String "-" r) => exp true r
                | String "e" (String "+" r) | String "E" (String "+" r) => exp false r
                | String "e" r | String "E" r => exp false r
                | _ => Some (0, s3)
                end in
      match ex with
      | None => None
      | Some (e, s4) => Some (make_num neg ip fp e, s4)
      end
  end.

(** [parseInt(s)] with no radix; [None] is NaN. Leading white space, a sign,
    then either [0x] and hexadecimal digits or the longest run of decimal
    digits; whatever follows is ignored. *)
Definition parseInt (s : string) : option Z :=
  let s0 := skip is_str_ws s in
  let '(neg, s1) := match s0 with
                    | String "-" r => (true, r)
                    | String "+" r => (false, r)
                    | _ => (false, s0)
                    end in
  let v := match s1 with
           | String "0" (String "x" r) | String "0" (String "X" r) => span_hex r 0
           | _ => let '(ds, _) := span_digits s1 in
                  if is_empty ds then None else Some (digits_value ds)
           end in
  match v with
  | Some n => Some (if neg then - n else n)
  | None => None
  end.

(** *** Strings *)

(** QuoteJSONString, one character at a time: the double quote (character
    34, written ["034"] below) and the backslash are escaped, a control character becomes its short escape or
    [\u00XX], any other byte is copied. *)
Definition escape_char (c : ascii) : string :=
  let n := Z.of_nat (nat_of_ascii c) in
  if n =? 34 then String "\" (String "034" EmptyString)
  else if n =? 92 then "\\"
  else if n =? 8 then "\b"
  else if n =? 12 then "\f"
  else if n =? 10 then "\n"
  else if n =? 13 then "\r"
  else if n =? 9 then "\t"
  else if n <? 32 then
    String "\" (String "u" (String "0" (String "0"
      (String (hex_char (n / 16)) (String (hex_char (n mod 16)) EmptyString)))))
  else String c EmptyString.

Fixpoint escape (s : string) : string :=
  match s with
  | String c r => escape_char c +:+ escape r
  | EmptyString => EmptyString
  end.

Definition quote (s : string) : string :=
  String "034" (escape s +:+ String "034" EmptyString).

Definition byte (n : Z) : ascii := ascii_of_nat (Z.to_nat n).

(** The UTF-8 bytes of the code unit of a [\uXXXX] escape (a surrogate is
    encoded on its own). *)
Definition utf8 (u : Z) : string :=
  if u <? 128 then String (byte u) EmptyString
  else if u <? 2048 then
    String (byte (192 + u / 64)) (String (byte (128 + u mod 64)) EmptyString)
  else
    String (byte (224 + u / 4096))
      (String (byte (128 + (u / 64) mod 64))
         (String (byte (128 + u mod 64)) EmptyString)).

Definition hex4 (a b c d : ascii) : option Z :=
  match hex_value a, hex_value b, hex_value c, hex_value d with
  | Some x, Some y, Some z, Some w => Some (((x * 16 + y) * 16 + z) * 16 + w)
  | _, _, _, _ => None
  end.

(** The characters of a JSON string literal after its opening quote, up to
    the closing one: the decoded string and what follows the literal. *)
Fixpoint parse_string_body (s : string) : option (string * string) :=
  match s with
  | EmptyString => None
  | String "034" rest => Some (EmptyString, rest)
  | String "\" (String e r) =>
      let simple (c : Z) :=
        match parse_string_body r with
        | Some (t, rest) => Some (String (byte c) t, rest)
        | None => None
        end in
      match e with
      | "034"%char => simple 34
      | "\"%char => simple 92
      | "/"%char => simple 47
      | "b"%char => simple 8
      | "f"%char => simple 12
      | "n"%char => simple 10
      | "r"%char => simple 13
      | "t"%char => simple 9
      | "u"%char =>
          match r with
          | String a (String b (String c (String d r'))) =>
              match hex4 a b c d, parse_string_body r' with
              | Some u, Some (t, rest) => Some (utf8 u +:+ t, rest)
              | _, _ => None
              end
          | _ => None
          end
      | _ => None
      end
  | String "\" EmptyString => None
  | String c r =>
      if (nat_of_ascii c <? 32)%nat then None
      else match parse_string_body r with
           | Some (t, rest) => Some (String c t, rest)
           | None => None
           end
  end.

(** *** JSON.stringify and JSON.parse *)

Fixpoint join (sep : string) (l : list string) : string :=
  match l with
  | [] => EmptyString
  | [x] => x
  | x :: r => x +:+ sep +:+ join sep r
  end.

Fixpoint JSON_stringify (v : json) : string :=
  match v with
  | JNull => "null"
  | JBool true => "true"
  | JBool false => "false"
  | JNum m k => print_num m k
  | JStr s => quote s
  | JArr l => "[" +:+ join "," (map JSON_stringify l) +:+ "]"
  | JObj fs =>
      "{" +:+ join "," (map (fun kv => quote (fst kv) +:+ ":" +:+ JSON_stringify (snd kv)) fs)
          +:+ "}"
  end.

(** [o[k] = v]: an existing property keeps its place. *)
Fixpoint obj_set (fs : list (string * json)) (k : string) (v : json)
  : list (string * json) :=
  match fs with
  | [] => [(k, v)]
  | (k', v') :: r => if String.eqb k' k then (k, v) :: r else (k', v') :: obj_set r k v
  end.

Definition starts_with (p s : string) : option string :=
  if String.prefix p s then Some (String.substring (String.length p) (String.length s - String.length p) s)
  else None.

(** Recursive descent over the JSON grammar. [parse_value] reads one value
    after optional white space; [parse_elements] and [parse_members] read the
    rest of an array and of an object once the opening bracket and a first
    non-closing character have been seen. Each call takes one unit of fuel. *)
Fixpoint parse_value (fuel : nat) (s : string) : option (json * string) :=
  match fuel with
  | O => None
  | S fuel =>
      let s := skip is_ws s in
      match s with
      | String "n" _ => option_map (pair JNull) (starts_with "null" s)
      | String "t" _ => option_map (pair (JBool true)) (starts_with "true" s)
      | String "f" _ => option_map (pair (JBool false)) (starts_with "false" s)
      | String "034" r =>
          match parse_string_body r with
          | Some (t, rest) => Some (JStr t, rest)
          | None => None
          end
      | String "[" r =>
          match skip is_ws r with
          | String "]" rest => Some (JArr [], rest)
          | r' => parse_elements fuel r' []
          end
      | String "{" r =>
          match skip is_ws r with
          | String "}" rest => Some (JObj [], rest)
          | r' => parse_members fuel r' []
          end
      | _ => parse_number s
      end
  end
with parse_elements (fuel : nat) (s : string) (acc : list json)
  : option (json * string) :=
  match fuel with
  | O => None
  | S fuel =>
      match parse_value fuel s with
      | Some (v, r) =>
          match skip is_ws r with
          | String "," r' => parse_elements fuel r' (acc ++ [v])
          | String "]" rest => Some (JArr (acc ++ [v]), rest)
          | _ => None
          end
      | None => None
      end
  end
with parse_members (fuel : nat) (s : string) (acc : list (string * json))
  : option (json * string) :=
  match fuel with
  | O => None
  | S fuel =>
      match skip is_ws s with
      | String "034" r =>
          match parse_string_body r with
          | Some (k, r1) =>
              match skip is_ws r1 with
              | String ":" r2 =>
                  match parse_value fuel r2 with
                  | Some (v, r3) =>
                      match skip is_ws r3 with
                      | String "," r4 => parse_members fuel r4 (obj_set acc k v)
                      | String "}" rest => Some (JObj (obj_set acc k v), rest)
                      | _ => None
                      end
                  | None => None
                  end
              | _ => None
              end
          | None => None
          end
      | _ => None
      end
  end.

(** [JSON.parse(s)]; [None] when it throws a SyntaxError. *)
Definition JSON_parse (s : string) : option json :=
  match parse_value (2 * String.length s + 2) s with
  | Some (v, rest) => if is_empty (skip is_ws rest) then Some v else None
  | None => None
  end.

(** *** Operators *)

(** ToBoolean. *)
Definition truthy (v : json) : bool :=
  match v with
  | JNull => false
  | JBool b => b
  | JNum m _ => negb (m =? 0)
  | JStr s => negb (is_empty s)
  | JArr _ | JObj _ => true
  end.

Fixpoint assoc (k : string) (fs : list (string * json)) : jsval :=
  match fs with
  | [] => None
  | (k', v) :: r => if String.eqb k' k then Some v else assoc k r
  end.

(** [v.k] for a property name [k] that no prototype defines ([name],
    [score], [accuracy], [efficiency], [date]): an own property of an
    object, [undefined] on any other value but [null], where it throws. *)
Definition get_prop (v : json) (k : string) : option jsval :=
  match v with
  | JNull => None
  | JObj fs => Some (assoc k fs)
  | _ => Some None
  end.

(** ToString of a JSON value (an array joins its elements, [null] ones as
    the empty string; an object is [[object Object]]). *)
Fixpoint to_string (v : json) : string :=
  match v with
  | JNull => "null"
  | JBool true => "true"
  | JBool false => "false"
  | JNum m k => print_num m k
  | JStr s => s
  | JArr l => join "," (map (fun x => match x with JNull => EmptyString | _ => to_string x end) l)
  | JObj _ => "[object Object]"
  end.

(** StringToNumber on decimal literals: the empty or blank string is 0, a
    JSON-style decimal literal (a leading [+] allowed) is its value, and
    anything else is NaN ([None]). The hexadecimal, octal and binary
    literals, [Infinity] and the forms [.5] and [5.] are not modelled. *)
Definition string_to_number (s : string) : option (Z * nat) :=
  let s := skip is_str_ws s in
  if is_empty s then Some (0, O) else
  let s := match s with String "+" r => r | _ => s end in
  match parse_number s with
  | Some (JNum m k, rest) => if is_empty (skip is_str_ws rest) then Some (m, k) else None
  | _ => None
  end.

(** ToNumber; [None] is NaN. *)
Definition to_number (v : json) : option (Z * nat) :=
  match v with
  | JNull => Some (0, O)
  | JBool true => Some (1, O)
  | JBool false => Some (0, O)
  | JNum m k => Some (m, k)
  | JStr s => string_to_number s
  | JArr _ | JObj _ => string_to_number (to_string v)
  end.

(** [n <= v] for an integer [n]: false when [v] is not a number. *)
Definition int_le (n : Z) (v : json) : bool :=
  match to_number v with
  | Some (m, k) => n * 10 ^ Z.of_nat k <=? m
  | None => false
  end.

(** *** Integers and infinities *)

(** What [parseInt] hands to the handler when it is not NaN, and what the
    store keeps as a score: an integer, or an infinity. [parseInt] returns
    [Infinity] for a run of digits beyond the range of a double (more than
    308 digits), and [isNaN] lets it pass. An integer is idealised as the
    JSON numbers are: it is exact and prints in plain decimal notation,
    which is what JavaScript and the store do for the magnitudes below
    [2^53] ([safe_integer]). *)
Inductive number : Type :=
| Int (z : Z)
| Inf (negative : bool).

Coercion Int : Z >-> number.

#[global] Instance number_eq_dec : EqDecision number.
Proof. solve_decision. Defined.

Definition is_finite (n : number) : bool :=
  match n with
  | Int _ => true
  | Inf _ => false
  end.

(** An integer that a double holds exactly, and whose neighbours it holds
    as well. *)
Definition safe_integer (n : number) : bool :=
  match n with
  | Int z => Z.abs z <? 2 ^ 53
  | Inf _ => false
  end.

(** The number as a property of an object that [JSON.stringify] writes:
    an infinity is written [null]. *)
Definition num_json (n : number) : json :=
  match n with
  | Int z => JInt z
  | Inf _ => JNull
  end.

(** [parseInt(n)] for a number: of its string form, which for an infinity
    is [Infinity] or [-Infinity] and has no digit. *)
Definition parseInt_number (n : number) : option Z :=
  match n with
  | Int z => Some z
  | Inf _ => None
  end.

(** [n <= v]: false when [v] is not a number; [to_number] gives no
    infinity, so [Infinity] is below no value and [-Infinity] below every
    number. *)
Definition num_le (n : number) (v : json) : bool :=
  match n with
  | Int z => int_le z v
  | Inf negative =>
      match to_number v with
      | Some _ => negative
      | None => false
      end
  end.

(** [a < b] on numbers. *)
Definition num_ltb (a b : number) : bool :=
  match a, b with
  | Int x, Int y => x <? y
  | Int _, Inf negative => negb negative
  | Inf negative, Int _ => negative
  | Inf x, Inf y => x && negb y
  end.

Definition num_lt (a b : number) : Prop := num_ltb a b.

Definition num_max (a b : number) : number := if num_ltb a b then b else a.

End JS.


(** ** The store *)

(** The handler talks to a Redis server (Upstash) that is not part of the
    repository. This module is a model of the commands it issues, after the
    Redis command reference: keys hold a string or a sorted set, a sorted set
    maps each member to its score and is ordered by ascending score, members
    of equal score by ascending byte order, and a command on a key of the
    other type fails. A score is a double: the handler writes integers and
    infinities ([JS.number]), and the store replies an infinity as [inf] or
    [-inf]. *)

Module Redis.

Inductive rvalue : Type :=
| RString (s : string)
| RZSet (z : gmap string JS.number).

Notation store := (gmap string rvalue).

(** A sorted set: its members and their scores. *)
Notation zset := (gmap string JS.number).

(** An element of a sorted set: the member and its score. *)
Notation elt := (string * JS.number)%type.

Definition str_ltb (a b : string) : bool :=
  match String_as_OT.compare a b with Lt => true | _ => false end.

(** The order of a sorted set: by score, then by member. *)
Definition elt_leb (a b : elt) : bool :=
  JS.num_ltb a.2 b.2 || (bool_decide (a.2 = b.2) && negb (str_ltb b.1 a.1)).

Definition elt_le (a b : elt) : Prop := elt_leb a b.

#[global] Instance elt_le_dec : RelDecision elt_le.
Proof. intros a b. unfold elt_le. apply _. Defined.

(** The elements from the lowest (rank 0) to the highest. *)
Definition zset_asc (z : zset) : list elt :=
  merge_sort elt_le (map_to_list z).

(** The elements from the highest (reverse rank 0) to the lowest. *)
Definition zset_desc (z : zset) : list elt := reverse (zset_asc z).

(** The index range [start .. stop] of a sequence of [len] elements, as the
    first index and the number of elements: a negative index counts from the
    end, [stop] is clamped to the last element, and the range is empty when
    [start] is past [stop] or past the end. *)
Definition range_bounds (len : nat) (start stop : Z) : nat * nat :=
  let n := Z.of_nat len in
  let start := if start <? 0 then Z.max 0 (start + n) else start in
  let stop := if stop <? 0 then stop + n else stop in
  let stop := Z.min stop (n - 1) in
  if stop <? start then (O, O) else (Z.to_nat start, Z.to_nat (stop - start + 1)).

Definition slice {A : Type} (l : list A) (start stop : Z) : list A :=
  let '(lo, n) := range_bounds (length l) start stop in take n (drop lo l).

Definition unslice {A : Type} (l : list A) (start stop : Z) : list A :=
  let '(lo, n) := range_bounds (length l) start stop in take lo l ++ drop (lo + n) l.

(** A score as the store replies it. An integer is replied in plain decimal
    notation; the store does so for the magnitudes below [2^53], and
    switches to exponent notation further up, which is not modelled: what
    is proved of a reply that is read back assumes scores below [2^53]. *)
Definition print_score (score : JS.number) : string :=
  match score with
  | JS.Int z => JS.print_int z
  | JS.Inf false => "inf"
  | JS.Inf true => "-inf"
  end.

(** The flat reply of a range command WITHSCORES: member, score, member,
    score, ... with each score as a string. *)
Definition with_scores (l : list elt) : list string :=
  flat_map (fun e => [e.1; print_score e.2]) l.

(** A sorted set that becomes empty is removed with its key. *)
Definition put_zset (k : string) (z : zset) (st : store) : store :=
  if decide (z = ∅) then delete k st else <[k := RZSet z]> st.

(** The sorted set at a key: an absent key reads as the empty set, a string
    key is a type error ([None]). *)
Definition zset_at (st : store) (k : string) : option (zset) :=
  match st !! k with
  | None => Some ∅
  | Some (RZSet z) => Some z
  | Some (RString _) => None
  end.

(** The commands, each as its reply (and the new store for a write); [None]
    is the error reply WRONGTYPE. *)

Definition GET (k : string) (st : store) : option (option string) :=
  match st !! k with
  | None => Some None
  | Some (RString s) => Some (Some s)
  | Some (RZSet _) => None
  end.

Definition SET (k v : string) (st : store) : store := <[k := RString v]> st.

Definition EXISTS (k : string) (st : store) : Z :=
  match st !! k with Some _ => 1 | None => 0 end.

Definition DEL (k : string) (st : store) : Z * store :=
  (EXISTS k st, delete k st).

Definition ZADD (k : string) (score : JS.number) (member : string) (st : store)
  : option (Z * store) :=
  match zset_at st k with
  | Some z => Some (match z !! member with Some _ => 0 | None => 1 end,
                    <[k := RZSet (<[member := score]> z)]> st)
  | None => None
  end.

Definition ZREM (k member : string) (st : store) : option (Z * store) :=
  match zset_at st k with
  | Some z =>
      match z !! member with
      | Some _ => Some (1, put_zset k (delete member z) st)
      | None => Some (0, st)
      end
  | None => None
  end.

Definition ZCARD (k : string) (st : store) : option Z :=
  match zset_at st k with
  | Some z => Some (Z.of_nat (size z))
  | None => None
  end.

Definition ZRANGE (k : string) (start stop : Z) (st : store) : option (list elt) :=
  match zset_at st k with
  | Some z => Some (slice (zset_asc z) start stop)
  | None => None
  end.

Definition ZREVRANGE (k : string) (start stop : Z) (st : store) : option (list elt) :=
  match zset_at st k with
  | Some z => Some (slice (zset_desc z) start stop)
  | None => None
  end.

(** The 0-based position of a member from the highest score down. *)
Definition ZREVRANK (k member : string) (st : store) : option (option Z) :=
  match zset_at st k with
  | Some z =>
      Some (match list_find (fun e : elt => e.1 = member) (zset_desc z) with
            | Some (i, _) => Some (Z.of_nat i)
            | None => None
            end)
  | None => None
  end.

Definition ZSCORE (k member : string) (st : store) : option (option JS.number) :=
  match zset_at st k with
  | Some z => Some (z !! member)
  | None => None
  end.

(** Removes the elements whose rank, counted from the lowest score up, lies
    in [start .. stop]. *)
Definition ZREMRANGEBYRANK (k : string) (start stop : Z) (st : store)
  : option (Z * store) :=
  match zset_at st k with
  | Some z =>
      let l := zset_asc z in
      let kept := unslice l start stop in
      Some (Z.of_nat (length l - length kept), put_zset k (list_to_map kept) st)
  | None => None
  end.

End Redis.

(** ** The handler *)

Import JS.

(** A command as [upstashCommand] receives it. *)
Inductive command : Type :=
| CGet (k : string)
| CSet (k v : string)
| CDel (k : string)
| CExists (k : string)
| CZadd (k : string) (score : number) (member : string)
| CZrem (k member : string)
| CZcard (k : string)
| CZrange (k : string) (start stop : Z)
| CZrevrange (k : string) (start stop : Z)
| CZrevrank (k member : string)
| CZscore (k member : string)
| CZremrangebyrank (k : string) (start stop : Z).

(** The commands that change the store. *)
Definition is_write (c : command) : bool :=
  match c with
  | CSet _ _ | CDel _ | CZadd _ _ _ | CZrem _ _ | CZremrangebyrank _ _ _ => true
  | _ => false
  end.

(** What a request runs against: the store, and the commands sent so far
    (oldest first). *)
Record world : Type := World { db : Redis.store; trace : list command }.

(** A computation of the handler: it may throw ([None]), and keeps whatever
    it has done to the store until then. *)
Definition M (A : Type) : Type := world -> option A * world.

Definition ret {A : Type} (a : A) : M A := fun w => (Some a, w).

Definition bind {A B : Type} (m : M A) (k : A -> M B) : M B :=
  fun w => match m w with
           | (Some a, w') => k a w'
           | (None, w') => (None, w')
           end.

Notation "'let!' x ':=' m 'in' k" := (bind m (fun x => k))
  (at level 10, x pattern, m at level 100, k at level 200).

(** [upstashCommand] for a read: the command is sent, the store's reply is
    the [result] of the response, an error reply is thrown. *)
Definition read {A : Type} (c : command) (f : Redis.store -> option A) : M A :=
  fun w => (f (db w), World (db w) (trace w ++ [c])).

(** [upstashCommand] for a write. *)
Definition write {A : Type} (c : command) (f : Redis.store -> option (A * Redis.store))
  : M A :=
  fun w => match f (db w) with
           | Some (a, st) => (Some a, World st (trace w ++ [c]))
           | None => (None, World (db w) (trace w ++ [c]))
           end.

Definition cmd_GET (k : string) : M (option string) := read (CGet k) (Redis.GET k).
Definition cmd_EXISTS (k : string) : M Z :=
  read (CExists k) (fun st => Some (Redis.EXISTS k st)).
Definition cmd_ZCARD (k : string) : M Z := read (CZcard k) (Redis.ZCARD k).
Definition cmd_ZRANGE (k : string) (start stop : Z) : M (list string) :=
  read (CZrange k start stop)
       (fun st => option_map Redis.with_scores (Redis.ZRANGE k start stop st)).
Definition cmd_ZREVRANGE (k : string) (start stop : Z) : M (list string) :=
  read (CZrevrange k start stop)
       (fun st => option_map Redis.with_scores (Redis.ZREVRANGE k start stop st)).
Definition cmd_ZREVRANK (k member : string) : M (option Z) :=
  read (CZrevrank k member) (Redis.ZREVRANK k member).
Definition cmd_ZSCORE (k member : string) : M (option number) :=
  read (CZscore k member) (Redis.ZSCORE k member).
Definition cmd_SET (k v : string) : M unit :=
  write (CSet k v) (fun st => Some (tt, Redis.SET k v st)).
Definition cmd_DEL (k : string) : M Z :=
  write (CDel k) (fun st => Some (Redis.DEL k st)).
Definition cmd_ZADD (k : string) (score : number) (member : string) : M Z :=
  write (CZadd k score member) (Redis.ZADD k score member).
Definition cmd_ZREM (k member : string) : M Z :=
  write (CZrem k member) (Redis.ZREM k member).
Definition cmd_ZREMRANGEBYRANK (k : string) (start stop : Z) : M Z :=
  write (CZremrangebyrank k start stop) (Redis.ZREMRANGEBYRANK k start stop).

(** An entry of the [rankings] array of a GET response. A field that is
    [undefined] (and so left out of the response) is [None]; the efficiency
    is the result of [parseInt], [None] for NaN. *)
Record ranking : Type := Ranking {
  r_name : jsval;
  r_score : jsval;
  r_accuracy : jsval;
  r_efficiency : option Z;
  r_date : jsval
}.

Inductive response : Type :=
| Rankings (rankings : list ranking)
| Updated (rank : Z)
| NotUpdated
| ResetDone (deletedKeys : list string)
| ServerError.

Definition ranking_key (mode : string) : string := "ranking:" +:+ mode.

Definition player_key (mode name : string) : string :=
  "player:" +:+ mode +:+ ":" +:+ name.

(** *** GET: the ranking of a mode *)

(** One iteration of the parsing loop (lines 1075-1103): the member is
    parsed as JSON; when that throws, or reading [data.name] throws, the
    member is a legacy entry that is its own name. *)
Definition parse_entry (dataStr efficiencyStr : string) : ranking :=
  let efficiency := parseInt efficiencyStr in
  let legacy := Ranking (Some (JStr dataStr)) None None efficiency None in
  match JSON_parse dataStr with
  | Some data =>
      match get_prop data "name", get_prop data "score",
            get_prop data "accuracy", get_prop data "date" with
      | Some name, Some score, Some accuracy, Some date =>
          Ranking name score accuracy efficiency date
      | _, _, _, _ => legacy
      end
  | None => legacy
  end.

(** The loop over the flat reply, two elements at a time (lines 1069-1104);
    a last element without a partner ends it. *)
Fixpoint parse_scores (scores : list string) : list ranking :=
  match scores with
  | dataStr :: efficiencyStr :: rest =>
      parse_entry dataStr efficiencyStr :: parse_scores rest
  | _ => []
  end.

Definition is_nil {A : Type} (l : list A) : bool :=
  match l with [] => true | _ => false end.

(** Lines 952-1111, for a store that answers [{result: ...}]. The mode
    defaults to [flick]. *)
Definition fetch (mode : string) : M response :=
  let mode := if is_empty mode then "flick" else mode in
  let key := ranking_key mode in
  let! scores := cmd_ZREVRANGE key 0 49 in
  let! scores :=
    (if is_nil scores then
       let! existsValue := cmd_EXISTS key in
       if existsValue =? 1 then
         let! _ := cmd_ZCARD key in
         let! altResult := cmd_ZRANGE key 0 (-1) in
         ret (if is_nil altResult then scores else altResult)
       else ret scores
     else ret scores) in
  if is_nil scores then
    let! _ := cmd_EXISTS key in
    ret (Rankings [])
  else ret (Rankings (parse_scores scores)).

(** *** POST: a score is submitted *)

(** The object of lines 1199-1205. Its numbers are those that passed the
    validation: [score] and [efficiency] come from [parseInt] and may be
    infinite; [accuracy] is a finite decimal. *)
Definition scoreData (name : string) (score : number) (accuracy : Z * nat)
    (efficiency : number) (date : string) : json :=
  JObj [("name", JStr name); ("score", num_json score);
        ("accuracy", JNum accuracy.1 accuracy.2);
        ("efficiency", num_json efficiency); ("date", JStr date)].

(** Lines 1157-1196: what the player's stored best says about the
    submission. [Some existing] is a best that the submission beats, and
    whose member is to be removed; [None] is no usable best. The outer
    [None] is the early return of line 1182. *)
Definition check_existing (existingValue : option string) (efficiency : number)
  : option (option json) :=
  match existingValue with
  | Some s =>
      if is_empty s then Some None else
      match JSON_parse s with
      | Some existing =>
          match truthy existing, get_prop existing "efficiency" with
          | true, Some (Some e) =>
              if num_le efficiency e then None else Some (Some existing)
          | _, _ => Some None
          end
      | None => Some None
      end
  | None => Some None
  end.

(** The check after the save (lines 1326-1342): is the saved score among
    the members just read back? *)
Fixpoint found_in (verifyScores : list string) (name : string) (efficiency : number)
  : bool :=
  match verifyScores with
  | item :: rest =>
      match JSON_parse item with
      | Some data =>
          match get_prop data "name", get_prop data "efficiency" with
          | Some (Some (JStr n)), Some (Some e) =>
              String.eqb n name
              && match parseInt (to_string e), parseInt_number efficiency with
                 | Some z, Some z' => z =? z'
                 | _, _ => false
                 end
          | _, _ => false
          end
      | None => false
      end
      || match rest with
         | _ :: rest' => found_in rest' name efficiency
         | [] => false
         end
  | [] => false
  end.

(** Lines 1148-1377: the POST branch once the body has passed validation
    and [score], [accuracy] and [efficiency] have been coerced to numbers
    that are not NaN (lines 1140-1146); [score] and [efficiency] may be
    infinite. [today] is the date string of the server's clock. *)
Definition submit (today mode name : string) (score : number) (accuracy : Z * nat)
    (efficiency : number) : M response :=
  let key := ranking_key mode in
  let playerKey := player_key mode name in
  let! existingValue := cmd_GET playerKey in
  match check_existing existingValue efficiency with
  | None => ret NotUpdated
  | Some existing =>
      let! _ := match existing with
                | Some e => cmd_ZREM key (JSON_stringify e)
                | None => ret 0
                end in
      let scoreDataStr := JSON_stringify (scoreData name score accuracy efficiency today) in
      let! _ := cmd_ZADD key efficiency scoreDataStr in
      let! _ := cmd_SET playerKey scoreDataStr in
      let! currentCount := cmd_ZCARD key in
      let! _ := (if currentCount >? 50 then cmd_ZREMRANGEBYRANK key 50 (-1)
                 else ret 0) in
      let! rankValue := cmd_ZREVRANK key scoreDataStr in
      let playerRank := match rankValue with
                        | Some r => r + 1
                        | None => 51
                        end in
      let! _ := cmd_ZCARD key in
      let! verifyScores := cmd_ZREVRANGE key 0 9 in
      let! _ := (if is_nil verifyScores then ret None
                 else if found_in verifyScores name efficiency then ret None
                 else cmd_ZSCORE key scoreDataStr) in
      ret (Updated playerRank)
  end.

(** The trim of the earlier revisions (lines 588 and 744). *)
Definition trim_v1 (key : string) : M Z := cmd_ZREMRANGEBYRANK key 0 (-51).

(** *** DELETE with [resetAll]: every ranking is cleared *)

Definition modes : list string := ["flick"; "tracking"; "grid"].

(** The loop of lines 1395-1411. *)
Fixpoint reset_loop (ms : list string) (deletedKeys : list string) : M (list string) :=
  match ms with
  | m :: ms' =>
      let key := ranking_key m in
      let! existsValue := cmd_EXISTS key in
      if existsValue =? 1 then
        let! _ := cmd_DEL key in
        reset_loop ms' (deletedKeys ++ [key])
      else reset_loop ms' deletedKeys
  | [] => ret deletedKeys
  end.

(** Lines 1391-1418, for an authorized caller. *)
Definition reset_all : M response :=
  let! deletedKeys := reset_loop modes [] in
  ret (ResetDone deletedKeys).

(** The [try ... catch] around the branches: a thrown error is answered
    with status 500. *)
Definition handle (m : M response) (w : world) : response * world :=
  match m w with
  | (Some r, w') => (r, w')
  | (None, w') => (ServerError, w')
  end.

(** *** DELETE and PUT: the administrator's requests *)

(** The answers of the two privileged methods: status 401, status 400, the
    three successes, and status 500. *)
Inductive admin_response : Type :=
| Unauthorized
| MissingFields
| AllReset (deletedKeys : list string)
| ScoreDeleted
| ScoreUpdated
| AdminError.

(** [process.env.ADMIN_PASSWORD || 'hiro0419'] (lines 1381 and 1445). *)
Definition admin_password (env : option string) : string :=
  match env with
  | Some p => if is_empty p then "hiro0419" else p
  | None => "hiro0419"
  end.

(** The check of lines 1384 and 1448 on the Authorization header. *)
Definition authorized (env authHeader : option string) : bool :=
  match authHeader with
  | Some h => negb (is_empty h) && String.eqb h ("Bearer " +:+ admin_password env)
  | None => false
  end.

(** [parseInt(v)] for a value of the request body: of its string form. *)
Definition parseInt_value (v : json) : option Z := parseInt (to_string v).

(** A number that may be NaN, as [JSON.stringify] writes it. *)
Definition int_or_null (n : option Z) : json :=
  match n with
  | Some z => JInt z
  | None => JNull
  end.

(** The member that DELETE and PUT look for (lines 1429-1432 and
    1463-1466): the name and the efficiency, nothing else. *)
Definition reduced_entry (name : string) (efficiency : json) : json :=
  JObj [("name", JStr name); ("efficiency", int_or_null (parseInt_value efficiency))].

(** Lines 1380-1441. [env] is the configured password, [authHeader] the
    request's Authorization header; [resetAll] is whether the body's
    [resetAll] is [true]; [mode] and [name] are strings (empty when
    absent) and [efficiency] is the body's value, if any. *)
Definition delete_request (env authHeader : option string) (resetAll : bool)
    (mode name : string) (efficiency : jsval) : M admin_response :=
  if negb (authorized env authHeader) then ret Unauthorized
  else if resetAll then
    let! deletedKeys := reset_loop modes [] in
    ret (AllReset deletedKeys)
  else
    match efficiency with
    | Some e =>
        if is_empty mode || is_empty name then ret MissingFields
        else
          let key := ranking_key mode in
          let playerKey := player_key mode name in
          let scoreDataStr := JSON_stringify (reduced_entry name e) in
          let! _ := cmd_ZREM key scoreDataStr in
          let! _ := cmd_DEL playerKey in
          ret ScoreDeleted
    | None => ret MissingFields
    end.

(** Lines 1444-1497, for a body whose [newScore] and [newEfficiency] are
    integers and whose [newAccuracy] is a number when they are present
    ([parseInt] and [parseFloat] leave such values as they are, and
    [toString] prints the integer). *)
Definition edit_request (env authHeader : option string) (today mode oldName : string)
    (oldEfficiency : jsval) (newName : string) (newScore : option Z)
    (newAccuracy : option (Z * nat)) (newEfficiency : option Z) : M admin_response :=
  if negb (authorized env authHeader) then ret Unauthorized
  else
    match oldEfficiency, newScore, newAccuracy, newEfficiency with
    | Some oldE, Some score, Some accuracy, Some efficiency =>
        if is_empty mode || is_empty oldName || is_empty newName then ret MissingFields
        else
          let key := ranking_key mode in
          let oldPlayerKey := player_key mode oldName in
          let newPlayerKey := player_key mode newName in
          let oldScoreDataStr := JSON_stringify (reduced_entry oldName oldE) in
          let newScoreDataStr :=
            JSON_stringify (scoreData newName score accuracy efficiency today) in
          let! _ := cmd_ZREM key oldScoreDataStr in
          let! _ := cmd_ZADD key efficiency newScoreDataStr in
          let! _ := (if String.eqb oldName newName then ret 0 else cmd_DEL oldPlayerKey) in
          let! _ := cmd_SET newPlayerKey newScoreDataStr in
          let! currentCount := cmd_ZCARD key in
          let! _ := (if currentCount >? 50 then cmd_ZREMRANGEBYRANK key 50 (-1)
                     else ret 0) in
          ret ScoreUpdated
    | _, _, _, _ => ret MissingFields
    end.

(** The [try ... catch] around the two branches. *)
Definition handle_admin (m : M admin_response) (w : world) : admin_response * world :=
  match m w with
  | (Some r, w') => (r, w')
  | (None, w') => (AdminError, w')
  end.

(** *** The earlier revisions *)

(** The parsing loop of the first three revisions (lines 287-307, 518-538
    and 675-695): no test for a last element without a partner, whose
    score is then [undefined]. *)
Fixpoint parse_scores_v1 (scores : list string) : list ranking :=
  match scores with
  | dataStr :: efficiencyStr :: rest =>
      parse_entry dataStr efficiencyStr :: parse_scores_v1 rest
  | [dataStr] => [parse_entry dataStr "undefined"]
  | [] => []
  end.

(** ** Notions used in the statements and proofs *)

Import Redis.

(** *** Shapes of strings *)

Fixpoint all_digits (s : string) : bool :=
  match s with
  | String c r => is_digit c && all_digits r
  | EmptyString => true
  end.

Definition no_digit_head (s : string) : bool :=
  match s with
  | String c _ => negb (is_digit c)
  | EmptyString => true
  end.

(** A printed integer is a sign and a digit string. *)
Definition sign_str (neg : bool) : string :=
  if neg then String "-" EmptyString else EmptyString.

Record digit_string (ds : string) : Prop := {
  ds_digits : all_digits ds = true;
  ds_nonempty : is_empty ds = false;
  ds_no_leading_zero : leading_zero ds = false
}.

(** What may follow a value inside an object or an array. *)
Definition delim (s : string) : Prop :=
  exists r, s = String "," r \/ s = String "}" r.

Definition num_head (s : string) : bool :=
  match s with
  | String c _ => is_digit c || Ascii.eqb c "-"
  | EmptyString => false
  end.

(** The value of a digit string read after the digits that made [acc]. *)
Fixpoint str_val (s : string) (acc : Z) : Z :=
  match s with
  | String c r => str_val r (10 * acc + (Z.of_nat (nat_of_ascii c) - 48))
  | EmptyString => acc
  end.

(** The same for Stdlib's decimal numbers. *)
Fixpoint uint_val (d : uint) (acc : Z) : Z :=
  match d with
  | Nil => acc
  | D0 l => uint_val l (10 * acc)
  | D1 l => uint_val l (10 * acc + 1)
  | D2 l => uint_val l (10 * acc + 2)
  | D3 l => uint_val l (10 * acc + 3)
  | D4 l => uint_val l (10 * acc + 4)
  | D5 l => uint_val l (10 * acc + 5)
  | D6 l => uint_val l (10 * acc + 6)
  | D7 l => uint_val l (10 * acc + 7)
  | D8 l => uint_val l (10 * acc + 8)
  | D9 l => uint_val l (10 * acc + 9)
  end.

(** *** Reasoning about computations *)

(** [wp m w Q]: from [w], the computation [m] returns without throwing, with
    a result and a world that satisfy [Q]. *)
Definition wp {A : Type} (m : M A) (w : world) (Q : A -> world -> Prop) : Prop :=
  match m w with
  | (Some a, w') => Q a w'
  | (None, _) => False
  end.

(** The world after a read [c]. *)
Definition sent (w : world) (c : command) : world := World (db w) (trace w ++ [c]).

(** *** The sorted set through an accepted submission *)

(** After the removal of the old member, if any, and the insertion of the
    new one. *)
Definition zset_inserted (z0 : zset) (existing : option json)
    (member : string) (score : number) : zset :=
  <[member := score]> (match existing with
                       | Some e => delete (JSON_stringify e) z0
                       | None => z0
                       end).

(** After the trim of lines 1262-1269. *)
Definition zset_trimmed (z : zset) : zset :=
  if Z.of_nat (size z) >? 50 then list_to_map (unslice (zset_asc z) 50 (-1)) else z.

(** The rank reported for a member (lines 1273-1276). *)
Definition rank_of (z : zset) (member : string) : Z :=
  match list_find (fun e : elt => e.1 = member) (zset_desc z) with
  | Some (i, _) => Z.of_nat i + 1
  | None => 51
  end.

(** What an accepted submission leaves behind. *)
Record accepted (mode name str : string) (ex : option json) (eff : number)
    (z : zset) (w w' : world) : Prop := {
  acc_player : db w' !! player_key mode name = Some (RString str);
  acc_zset : zset_at (db w') (ranking_key mode) = Some z;
  acc_frame : forall k, k ≠ ranking_key mode -> k ≠ player_key mode name ->
                        db w' !! k = db w !! k;
  acc_trace : exists tr,
    trace w' = trace w ++ CGet (player_key mode name)
      :: match ex with
         | Some e => [CZrem (ranking_key mode) (JSON_stringify e)]
         | None => []
         end
      ++ CZadd (ranking_key mode) eff str :: CSet (player_key mode name) str :: tr
    /\ Forall (fun c => forall k m, c ≠ CZrem k m) tr
}.


(** *** Ranks *)

(** The members that come before a member of the given score from the
    highest down: a greater score, or the same score and a member that is
    greater in byte order. *)
Definition ranked_above (z : zset) (member : string) (score : number) : nat :=
  length (filter (fun e : elt => ¬ elt_le e (member, score)) (map_to_list z)).

(** The members of strictly greater score. *)
Definition count_greater (z : zset) (score : number) : nat :=
  length (filter (fun e : elt => num_lt score e.2) (map_to_list z)).


(** *** Invariants of the store *)

(** Every score of the sorted set at a key is an integer of magnitude below
    [2^53]: the store replies it in plain decimal notation and [parseInt]
    reads it back exactly. It holds as well when the key has no sorted
    set. *)
Definition safe_scores (st : store) (k : string) : bool :=
  match st !! k with
  | Some (RZSet z) => forallb (fun e : elt => safe_integer e.2) (map_to_list z)
  | _ => true
  end.

(** The integer that a finite score is. *)
Definition int_score (score : number) : Z :=
  match score with
  | Int z => z
  | Inf _ => 0
  end.

(** No sorted set holds more than 50 members. *)
Definition bounded (st : store) : bool :=
  forallb (fun kv : string * rvalue =>
             match kv.2 with
             | RZSet z => (size z <=? 50)%nat
             | RString _ => true
             end) (map_to_list st).


(** *** Stored bests and traces *)

(** The efficiency recorded in a stored best, when the stored value parses
    as JSON and the parsed value has an [efficiency] property. *)
Definition stored_efficiency (s : string) : jsval :=
  match JSON_parse s with
  | Some v =>
      match get_prop v "efficiency" with
      | Some (Some e) => Some e
      | _ => None
      end
  | None => None
  end.

(** Not a removal of a member. *)
Definition not_zrem (c : command) : Prop := forall k m, c ≠ CZrem k m.


(** The keys among [ks] that exist in the store. *)
Definition existing_keys (st : store) (ks : list string) : list string :=
  filter (fun k => is_Some (st !! k)) ks.

(** The commands of a trace that change the store. *)
Definition writes (tr : list command) : list command :=
  filter (fun c => is_write c = true) tr.

(** *** A player's history *)

(** One submission of a player: the server's date and the validated body. *)
Record submission : Type := Submission {
  s_today : string;
  s_score : number;
  s_accuracy : Z * nat;
  s_efficiency : number
}.

(** A player's submissions, one request after the other. *)
Fixpoint submit_all (mode name : string) (subs : list submission) (w : world)
  : list response * world :=
  match subs with
  | [] => ([], w)
  | s :: rest =>
      let '(r, w1) := handle (submit (s_today s) mode name (s_score s) (s_accuracy s)
                                     (s_efficiency s)) w in
      let '(rs, w') := submit_all mode name rest w1 in
      (r :: rs, w')
  end.

(** The submission was accepted or rejected (status 200), not failed. *)
Definition answered (r : response) : bool :=
  match r with
  | Updated _ | NotUpdated => true
  | _ => false
  end.

(** The efficiency of the player's stored best, when it is an integer. *)
Definition best_efficiency (st : store) (mode name : string) : option number :=
  match GET (player_key mode name) st with
  | Some (Some s) =>
      match stored_efficiency s with
      | Some (JNum m O) => Some (Int m)
      | _ => None
      end
  | _ => None
  end.

Definition max_so_far (best : option number) (x : number) : option number :=
  Some (match best with Some m => num_max m x | None => x end).

(** The greatest element, [None] for no element. *)
Definition maximum (l : list number) : option number := foldl max_so_far None l.

(** What the player's key holds while only that player's submissions run:
    nothing, or the entry of the best submission so far. *)
Definition holds_best (st : store) (mode name : string) (best : option Z) : Prop :=
  match best with
  | None => st !! player_key mode name = None
  | Some e => exists today score acc,
      st !! player_key mode name
      = Some (RString (JSON_stringify (scoreData name score acc e today)))
  end.

(** Alice submits 80, then 70, then 95. *)
Definition alice_three : list submission :=
  [Submission "2025/1/1" 1000 (955, 1%nat) 80;
   Submission "2025/1/2" 900 (90, 0%nat) 70;
   Submission "2025/1/3" 1200 (97, 0%nat) 95].

(** Alice submits an efficiency of more than 308 digits, which [parseInt]
    has turned into [Infinity], then 5. *)
Definition overflow_then_five : list submission :=
  [Submission "2025/1/1" 1000 (955, 1%nat) (Inf false);
   Submission "2025/1/2" 900 (90, 0%nat) 5].

(** *** Computations that only read, and the outcome of an edit *)

(** A computation that leaves the store as it is and sends no write. *)
Definition quiet {A : Type} (m : M A) : Prop :=
  forall w, db (m w).2 = db w /\ writes (trace (m w).2) = writes (trace w).


(** What a successful PUT leaves behind. *)
Record edited (mode oldName newName new : string) (z : zset) (w w' : world)
  : Prop := {
  ed_zset : zset_at (db w') (ranking_key mode) = Some z;
  ed_new : db w' !! player_key mode newName = Some (RString new);
  ed_old : oldName <> newName -> db w' !! player_key mode oldName = None;
  ed_frame : forall k, k <> ranking_key mode -> k <> player_key mode newName ->
                       k <> player_key mode oldName -> db w' !! k = db w !! k
}.

(** *** Scenarios *)

(** The empty store, nothing sent yet. *)
Definition w0 : world := World ∅ [].

(** The world a request leaves behind. *)
Definition after (m : M response) (w : world) : world := (handle m w).2.

(** Alice has scored 80 in mode flick on an empty store. *)
Definition w_alice : world :=
  after (submit "2025/1/1" "flick" "Alice" 1000 (955, 1%nat) 80) w0.

(** Then Carol submits an efficiency of more than 308 digits, which
    [parseInt] has turned into [Infinity]. *)
Definition w_overflow : world :=
  after (submit "2025/1/2" "flick" "Carol" 1200 (97, 0%nat) (Inf false)) w_alice.

(** Bob has scored 80 in mode flick on an empty store. *)
Definition w_bob : world :=
  after (submit "2025/1/1" "flick" "Bob" 1000 (955, 1%nat) 80) w0.

(** Players p1, p2, ... submit the efficiencies 1, 2, ... in this order, each
    once, in mode tracking. *)
Definition player (i : nat) : string := "p" +:+ print_int (Z.of_nat i).

Definition submit_nth (w : world) (i : nat) : world :=
  after (submit "2025/1/1" "tracking" (player i) 1000 (955, 1%nat) (Z.of_nat i)) w.

Definition w_players (n : nat) : world := fold_left submit_nth (seq 1 n) w0.

(** The efficiencies of a GET response, best first. *)
Definition efficiencies (r : response) : list (option Z) :=
  match r with
  | Rankings l => r_efficiency <$> l
  | _ => []
  end.

(** * Properties *)

Local Arguments String.append : simpl nomatch.

(** ** JSON: what is printed parses back *)

Lemma sapp_assoc (a b c : string) : (a +:+ b) +:+ c = a +:+ (b +:+ c).
Proof. induction a as [|x a IH]; simpl; [reflexivity | by f_equal]. Qed.

Lemma sapp_nil_r (a : string) : a +:+ EmptyString = a.
Proof. induction a as [|x a IH]; simpl; [reflexivity | by f_equal]. Qed.

Lemma span_digits_app (s rest : string) :
  all_digits s = true -> no_digit_head rest = true ->
  span_digits (s +:+ rest) = (s, rest).
Proof.
  intros Hs Hr. induction s as [|c s IH]; simpl in *.
  - destruct rest as [|c r]; [reflexivity|]. simpl in *.
    by destruct (is_digit c).
  - apply andb_true_iff in Hs as [Hc Hs]. by rewrite Hc, IH.
Qed.

Lemma all_digits_uint (d : uint) : all_digits (NilEmpty.string_of_uint d) = true.
Proof. induction d; simpl; auto. Qed.

Lemma digits_value_uint (d : uint) :
  digits_value (NilEmpty.string_of_uint d) = Z.of_uint d.
Proof. unfold digits_value. by rewrite NilEmpty.usu. Qed.

Lemma leading_zero_pos (p : positive) :
  leading_zero (NilEmpty.string_of_uint (Pos.to_uint p)) = false.
Proof.
  pose proof (DecimalPos.Unsigned.to_of (Pos.to_uint p)) as H.
  rewrite DecimalPos.Unsigned.of_to in H. simpl in H.
  pose proof (DecimalPos.Unsigned.to_uint_nonnil p) as Hn.
  destruct (Pos.to_uint p) as [|u|u|u|u|u|u|u|u|u|u] eqn:E; try reflexivity; try congruence.
  - (* D0 u *)
    rewrite unorm_D0 in H.
    destruct u; try reflexivity.
    all: exfalso.
    all: match type of H with D0 ?u = _ =>
      pose proof (nb_digits_unorm u ltac:(discriminate)) as Hl end.
    all: rewrite <- H in Hl; simpl in Hl; lia.
Qed.


Lemma print_int_pos (p : positive) :
  print_int (Z.pos p) = NilEmpty.string_of_uint (Pos.to_uint p).
Proof.
  unfold print_int. simpl. pose proof (DecimalPos.Unsigned.to_uint_nonnil p).
  unfold NilZero.string_of_uint. by destruct (Pos.to_uint p).
Qed.

Lemma print_int_neg (p : positive) :
  print_int (Z.neg p) = String "-" (NilEmpty.string_of_uint (Pos.to_uint p)).
Proof.
  unfold print_int. simpl. pose proof (DecimalPos.Unsigned.to_uint_nonnil p).
  unfold NilZero.string_of_uint. by destruct (Pos.to_uint p).
Qed.

Lemma digits_value_pos (p : positive) :
  digits_value (NilEmpty.string_of_uint (Pos.to_uint p)) = Z.pos p.
Proof.
  rewrite digits_value_uint. unfold Z.of_uint.
  by rewrite DecimalPos.Unsigned.of_to.
Qed.

Lemma string_of_uint_nonempty (p : positive) :
  is_empty (NilEmpty.string_of_uint (Pos.to_uint p)) = false.
Proof.
  pose proof (DecimalPos.Unsigned.to_uint_nonnil p).
  by destruct (Pos.to_uint p).
Qed.

Lemma print_int_shape (z : Z) :
  exists ds, print_int z = sign_str (z <? 0) +:+ ds /\ digit_string ds /\ digits_value ds = Z.abs z.
Proof.
  destruct z as [|p|p].
  - exists (String "0" EmptyString). by repeat split.
  - exists (NilEmpty.string_of_uint (Pos.to_uint p)). rewrite print_int_pos.
    repeat split; auto using all_digits_uint, string_of_uint_nonempty, leading_zero_pos, digits_value_pos.
  - exists (NilEmpty.string_of_uint (Pos.to_uint p)). rewrite print_int_neg.
    repeat split; auto using all_digits_uint, string_of_uint_nonempty, leading_zero_pos, digits_value_pos.
Qed.

Lemma delim_no_digit s : delim s -> no_digit_head s = true.
Proof. by intros [r [-> | ->]]. Qed.

Lemma digit_not_minus ds c r : ds = String c r -> all_digits ds = true -> c <> "-"%char.
Proof. intros -> H ->. discriminate. Qed.

Lemma parse_number_int_lit (neg : bool) (ds rest : string) :
  digit_string ds -> delim rest ->
  parse_number (sign_str neg +:+ ds +:+ rest) = Some (make_num neg ds EmptyString 0, rest).
Proof.
  intros [Hd He Hz] Hr. pose proof (delim_no_digit _ Hr) as Hn.
  unfold parse_number.
  assert (Hs : (match sign_str neg +:+ ds +:+ rest with
                | String "-" r => (true, r)
                | _ => (false, sign_str neg +:+ ds +:+ rest)
                end) = (neg, ds +:+ rest)).
  { destruct neg; [reflexivity|]. simpl.
    destruct ds as [|c r]; [discriminate|]. simpl in Hd.
    apply andb_true_iff in Hd as [Hc _].
    destruct c as [[] [] [] [] [] [] [] []]; try discriminate; reflexivity. }
  rewrite Hs, (span_digits_app _ _ Hd Hn), He, Hz. simpl.
  by destruct Hr as [r [-> | ->]].
Qed.

Lemma parse_number_frac_lit (neg : bool) (ds fs rest : string) :
  digit_string ds -> all_digits fs = true -> is_empty fs = false -> delim rest ->
  parse_number (sign_str neg +:+ ds +:+ String "." (fs +:+ rest))
  = Some (make_num neg ds fs 0, rest).
Proof.
  intros [Hd He Hz] Hf Hfe Hr. pose proof (delim_no_digit _ Hr) as Hn.
  unfold parse_number.
  assert (Hs : (match sign_str neg +:+ ds +:+ String "." (fs +:+ rest) with
                | String "-" r => (true, r)
                | _ => (false, sign_str neg +:+ ds +:+ String "." (fs +:+ rest))
                end) = (neg, ds +:+ String "." (fs +:+ rest))).
  { destruct neg; [reflexivity|]. simpl.
    destruct ds as [|c r]; [discriminate|]. simpl in Hd.
    apply andb_true_iff in Hd as [Hc _].
    destruct c as [[] [] [] [] [] [] [] []]; try discriminate; reflexivity. }
  rewrite Hs, (span_digits_app ds (String "." (fs +:+ rest)) Hd eq_refl), He, Hz. simpl.
  rewrite (span_digits_app _ _ Hf Hn), Hfe.
  by destruct Hr as [r [-> | ->]].
Qed.

Lemma make_num_int (neg : bool) (ds : string) :
  make_num neg ds EmptyString 0 = JNum (if neg then - digits_value ds else digits_value ds) 0.
Proof.
  unfold make_num. rewrite sapp_nil_r. simpl. by rewrite Z.mul_1_r.
Qed.

Lemma parse_number_print_int (z : Z) (rest : string) :
  delim rest -> parse_number (print_int z +:+ rest) = Some (JNum z 0, rest).
Proof.
  intros Hr. destruct (print_int_shape z) as (ds & -> & Hds & Hv).
  rewrite sapp_assoc, parse_number_int_lit, make_num_int, Hv by done.
  do 3 f_equal. destruct (Z.ltb_spec z 0); lia.
Qed.

Lemma is_digit_digit_char (d : Z) : is_digit (digit_char d) = true.
Proof.
  unfold digit_char.
  assert (H : (0 <= d mod 10 < 10)%Z) by (apply Z.mod_pos_bound; lia).
  assert (Hn : (Z.to_nat (d mod 10) < 10)%nat) by lia.
  destruct (Z.to_nat (d mod 10)) as [|[|[|[|[|[|[|[|[|[|n]]]]]]]]]]; try reflexivity; lia.
Qed.

Lemma all_digits_frac (k : nat) (r : Z) : all_digits (frac_digits k r) = true.
Proof.
  revert r. induction k as [|k IH]; intros r; cbn [frac_digits all_digits]; [done|].
  by rewrite is_digit_digit_char, IH.
Qed.

Lemma parse_number_print_num (m : Z) (k : nat) (rest : string) :
  delim rest -> exists m' k', parse_number (print_num m k +:+ rest) = Some (JNum m' k', rest).
Proof.
  intros Hr. unfold print_num. destruct (num_norm m k) as [m1 [|k1]].
  - exists m1, O. by apply parse_number_print_int.
  - destruct (print_int_shape (Z.abs m1 / 10 ^ Z.of_nat (S k1))) as (ds & -> & Hds & _).
    assert (Hpos : (Z.abs m1 / 10 ^ Z.of_nat (S k1) <? 0) = false).
    { apply Z.ltb_ge. apply Z.div_pos; lia. }
    rewrite Hpos. simpl sign_str.
    change (EmptyString +:+ ds) with ds.
    change ((if m1 <? 0 then String "-" EmptyString else EmptyString)) with (sign_str (m1 <? 0)).
    rewrite !sapp_assoc.
    change (String "." EmptyString +:+ ?x) with (String "." x).
    rewrite parse_number_frac_lit; try done.
    + unfold make_num. destruct (_ <=? 0); [eauto|]. destruct (num_norm _ _). eauto.
    + apply all_digits_frac.
Qed.

Lemma parse_string_char (c : ascii) (t : string) :
  parse_string_body (escape_char c +:+ t) =
  match parse_string_body t with
  | Some (u, rest) => Some (String c u, rest)
  | None => None
  end.
Proof. destruct c as [[] [] [] [] [] [] [] []]; reflexivity. Qed.

Lemma parse_string_escape (s rest : string) :
  parse_string_body (escape s +:+ String "034" rest) = Some (s, rest).
Proof.
  induction s as [|c s IH]; [reflexivity|].
  simpl escape. by rewrite sapp_assoc, parse_string_char, IH.
Qed.

Lemma quote_app (s rest : string) :
  quote s +:+ rest = String "034" (escape s +:+ String "034" rest).
Proof. unfold quote. simpl. by rewrite sapp_assoc. Qed.

Lemma parse_value_string (f : nat) (s rest : string) :
  parse_value (S f) (quote s +:+ rest) = Some (JStr s, rest).
Proof. rewrite quote_app. simpl. by rewrite parse_string_escape. Qed.

Lemma parse_value_number (f : nat) (s : string) :
  num_head s = true -> parse_value (S f) s = parse_number s.
Proof.
  destruct s as [|c r]; [discriminate|].
  destruct c as [[] [] [] [] [] [] [] []]; try discriminate; reflexivity.
Qed.

Lemma num_head_print_int (z : Z) (rest : string) : num_head (print_int z +:+ rest) = true.
Proof.
  destruct (print_int_shape z) as (ds & -> & [Hd He _] & _).
  destruct (z <? 0); [reflexivity|]. simpl.
  destruct ds as [|c r]; [discriminate|]. simpl in *.
  apply andb_true_iff in Hd as [-> _]. reflexivity.
Qed.

Lemma parse_value_int (f : nat) (z : Z) (rest : string) :
  delim rest -> parse_value (S f) (print_int z +:+ rest) = Some (JNum z 0, rest).
Proof.
  intros. rewrite parse_value_number by apply num_head_print_int.
  by apply parse_number_print_int.
Qed.

Lemma num_head_print_num (m : Z) (k : nat) (rest : string) :
  num_head (print_num m k +:+ rest) = true.
Proof.
  unfold print_num. destruct (num_norm m k) as [m1 [|k1]].
  - apply num_head_print_int.
  - destruct (m1 <? 0); [reflexivity|]. simpl. rewrite sapp_assoc.
    apply num_head_print_int.
Qed.

Lemma parse_value_num (f : nat) (m : Z) (k : nat) (rest : string) :
  delim rest ->
  exists m' k', parse_value (S f) (print_num m k +:+ rest) = Some (JNum m' k', rest).
Proof.
  intros. rewrite parse_value_number by apply num_head_print_num.
  by apply parse_number_print_num.
Qed.

Lemma parse_members_step (f : nat) (k s r : string) (v : json) acc :
  parse_value f s = Some (v, String "," r) ->
  parse_members (S f) (quote k +:+ String ":" s) acc = parse_members f r (obj_set acc k v).
Proof.
  intros H. rewrite quote_app. simpl. by rewrite parse_string_escape; simpl; rewrite H.
Qed.

Lemma parse_members_last (f : nat) (k s r : string) (v : json) acc :
  parse_value f s = Some (v, String "}" r) ->
  parse_members (S f) (quote k +:+ String ":" s) acc = Some (JObj (obj_set acc k v), r).
Proof.
  intros H. rewrite quote_app. simpl. by rewrite parse_string_escape; simpl; rewrite H.
Qed.

Lemma parse_value_object (f : nat) (k t : string) :
  parse_value (S f) (String "{" (quote k +:+ t)) = parse_members f (quote k +:+ t) [].
Proof. rewrite quote_app. reflexivity. Qed.

Lemma substring_all (s : string) : String.substring 0 (String.length s) s = s.
Proof. induction s as [|c s IH]; [reflexivity|]. simpl. by rewrite IH. Qed.

Lemma parse_value_null (f : nat) (rest : string) :
  parse_value (S f) (String "n" (String "u" (String "l" (String "l" rest))))
  = Some (JNull, rest).
Proof.
  transitivity (option_map (pair JNull)
                  (starts_with "null" (String "n" (String "u" (String "l" (String "l" rest))))));
    [reflexivity|].
  unfold starts_with.
  assert (Hp : String.prefix "null" (String "n" (String "u" (String "l" (String "l" rest))))
               = true) by (by destruct rest).
  rewrite Hp. cbn [String.length Nat.sub String.substring option_map].
  by rewrite Nat.sub_0_r, substring_all.
Qed.

(** A number of an entry, as it is written and read back. *)
Lemma parse_value_num_json (f : nat) (n : number) (rest : string) :
  delim rest ->
  parse_value (S f) (JSON_stringify (num_json n) +:+ rest) = Some (num_json n, rest).
Proof.
  intros Hr. destruct n as [z|negative].
  - change (JSON_stringify (num_json (Int z))) with (print_int z).
    by apply parse_value_int.
  - apply parse_value_null.
Qed.

Lemma stringify_scoreData name (score : number) acc (eff : number) date :
  JSON_stringify (scoreData name score acc eff date) =
  String "{" (quote "name" +:+ String ":" (quote name +:+ String ","
    (quote "score" +:+ String ":" (JSON_stringify (num_json score) +:+ String ","
    (quote "accuracy" +:+ String ":" (print_num acc.1 acc.2 +:+ String ","
    (quote "efficiency" +:+ String ":" (JSON_stringify (num_json eff) +:+ String ","
    (quote "date" +:+ String ":" (quote date +:+ String "}" EmptyString)))))))))).
Proof.
  unfold scoreData. cbn [JSON_stringify map join fst snd].
  rewrite !sapp_assoc. reflexivity.
Qed.

Lemma delim_comma r : delim (String "," r).
Proof. exists r. by left. Qed.
Lemma delim_brace r : delim (String "}" r).
Proof. exists r. by right. Qed.

Lemma parse_scoreData name score acc eff date :
  exists m k,
    JSON_parse (JSON_stringify (scoreData name score acc eff date))
    = Some (scoreData name score (m, k) eff date).
Proof.
  unfold JSON_parse.
  remember (2 * String.length (JSON_stringify (scoreData name score acc eff date)) + 2)%nat as fuel eqn:Hf.
  rewrite stringify_scoreData in *.
  assert (Hfuel : (7 <= fuel)%nat) by (rewrite Hf; simpl; lia).
  clear Hf.
  do 7 (destruct fuel as [|fuel]; [lia|]).
  destruct (parse_value_num (S (S fuel)) acc.1 acc.2 _ (delim_comma
    (quote "efficiency" +:+ String ":" (JSON_stringify (num_json eff) +:+ String ","
    (quote "date" +:+ String ":" (quote date +:+ String "}" EmptyString)))))) as (m & k & Hacc).
  exists m, k.
  rewrite parse_value_object.
  erewrite parse_members_step by apply parse_value_string.
  erewrite parse_members_step by (apply parse_value_num_json, delim_comma).
  erewrite parse_members_step by apply Hacc.
  erewrite parse_members_step by (apply parse_value_num_json, delim_comma).
  erewrite parse_members_last by apply parse_value_string.
  reflexivity.
Qed.

(** ** The order of a sorted set *)

Lemma str_ltb_lt a b : str_ltb a b = true <-> String_as_OT.lt a b.
Proof.
  unfold str_ltb, String_as_OT.lt. destruct (String_as_OT.compare a b); split; congruence.
Qed.

Lemma str_lt_irrefl a : ¬ String_as_OT.lt a a.
Proof. apply (StrictOrder_Irreflexive (R:=String_as_OT.lt)). Qed.

Lemma str_lt_trans a b c : String_as_OT.lt a b -> String_as_OT.lt b c -> String_as_OT.lt a c.
Proof. apply (StrictOrder_Transitive (R:=String_as_OT.lt)). Qed.

Lemma str_trichotomy a b : String_as_OT.lt a b \/ a = b \/ String_as_OT.lt b a.
Proof. destruct (String_as_OT.compare_spec a b); auto. Qed.

(** Numbers: the integers between the two infinities. *)
Lemma num_lt_spec (a b : number) :
  num_lt a b <->
  match a, b with
  | Int x, Int y => x < y
  | Int _, Inf negative => negative = false
  | Inf negative, Int _ => negative = true
  | Inf x, Inf y => x = true /\ y = false
  end.
Proof.
  unfold num_lt. destruct a as [x|[]], b as [y|[]]; simpl;
    rewrite ?Is_true_true, ?Z.ltb_lt; intuition congruence.
Qed.

Lemma num_lt_int (x y : Z) : num_lt (Int x) (Int y) <-> x < y.
Proof. apply num_lt_spec. Qed.

Lemma num_lt_irrefl (a : number) : ¬ num_lt a a.
Proof. rewrite num_lt_spec. destruct a as [x|[]]; [lia|intuition congruence..]. Qed.

Lemma num_lt_trans (a b c : number) : num_lt a b -> num_lt b c -> num_lt a c.
Proof.
  rewrite !num_lt_spec. destruct a as [x|[]], b as [y|[]], c as [z|[]];
    first [lia | intuition congruence].
Qed.

Lemma num_lt_trichotomy (a b : number) : num_lt a b \/ a = b \/ num_lt b a.
Proof.
  rewrite !num_lt_spec. destruct a as [x|[]], b as [y|[]]; auto.
  destruct (Z.lt_trichotomy x y) as [?|[->|?]]; auto.
Qed.

Lemma num_lt_asym (a b : number) : num_lt a b -> ¬ num_lt b a.
Proof. intros H H'. exact (num_lt_irrefl a (num_lt_trans _ _ _ H H')). Qed.

Lemma elt_le_iff (a b : elt) :
  elt_le a b <-> num_lt a.2 b.2 \/ (a.2 = b.2 /\ ¬ String_as_OT.lt b.1 a.1).
Proof.
  unfold elt_le, elt_leb, num_lt.
  rewrite orb_True, andb_True, negb_True, bool_decide_spec, (Is_true_true (str_ltb _ _)).
  rewrite str_ltb_lt. tauto.
Qed.

Lemma str_lt_asym a b : String_as_OT.lt a b -> ¬ String_as_OT.lt b a.
Proof. intros H H'. exact (str_lt_irrefl a (str_lt_trans _ _ _ H H')). Qed.

Global Instance elt_le_total : Total elt_le.
Proof.
  intros a b. rewrite !elt_le_iff.
  destruct (num_lt_trichotomy a.2 b.2) as [Hz | [Hz | Hz]]; [by left; left | | by right; left].
  destruct (str_trichotomy a.1 b.1) as [H | [H | H]].
  - left; right. split; [done|]. by apply str_lt_asym.
  - left; right. split; [done|]. rewrite H. apply str_lt_irrefl.
  - right; right. split; [done|]. by apply str_lt_asym.
Qed.

Global Instance elt_le_trans : Transitive elt_le.
Proof.
  intros a b c. rewrite !elt_le_iff.
  intros [H1|[H1 Hab]] [H2|[H2 Hbc]];
    [left; eauto using num_lt_trans | left; by rewrite <- H2 | left; by rewrite H1 |].
  right. split; [congruence|]. intros Hca.
  destruct (str_trichotomy a.1 b.1) as [Hs | [Hs | Hs]]; [|congruence|done].
  apply Hbc. eauto using str_lt_trans.
Qed.

Global Instance elt_le_antisym : AntiSymm eq elt_le.
Proof.
  intros [a1 a2] [b1 b2]. rewrite !elt_le_iff. simpl.
  intros [H1|[H1 Hab]] [H2|[H2 Hba]];
    [by destruct (num_lt_asym _ _ H1)
     | subst; exfalso; eapply num_lt_irrefl; eassumption
     | subst; exfalso; eapply num_lt_irrefl; eassumption |].
  destruct (str_trichotomy a1 b1) as [Hs | [Hs | Hs]]; try done. congruence.
Qed.

Lemma zset_asc_perm z : zset_asc z ≡ₚ map_to_list z.
Proof. apply merge_sort_Permutation. Qed.

Lemma zset_asc_sorted z : StronglySorted elt_le (zset_asc z).
Proof. apply StronglySorted_merge_sort; apply _. Qed.

Lemma zset_asc_nodup z : NoDup (zset_asc z).*1.
Proof. rewrite zset_asc_perm. apply NoDup_fst_map_to_list. Qed.

Lemma zset_asc_elem z m s : (m, s) ∈ zset_asc z <-> z !! m = Some s.
Proof. rewrite zset_asc_perm. apply elem_of_map_to_list. Qed.

Lemma zset_asc_length z : length (zset_asc z) = size z.
Proof. rewrite zset_asc_perm. by rewrite length_map_to_list. Qed.

(** ** The commands, as steps of a computation *)

Lemma wp_ret {A} (a : A) w Q : Q a w -> wp (ret a) w Q.
Proof. done. Qed.

Lemma wp_bind {A B} (m : M A) (k : A -> M B) w Q :
  wp m w (fun a w' => wp (k a) w' Q) -> wp (bind m k) w Q.
Proof. unfold wp, bind. by destruct (m w) as [[a|] w']. Qed.

Lemma wp_read {A} c (f : store -> option A) w a Q :
  f (db w) = Some a -> Q a (sent w c) -> wp (read c f) w Q.
Proof. unfold wp, read. by intros ->. Qed.

Lemma wp_write {A} c (f : store -> option (A * store)) w a st Q :
  f (db w) = Some (a, st) -> Q a (World st (trace w ++ [c])) -> wp (write c f) w Q.
Proof. unfold wp, write. by intros ->. Qed.

Lemma wp_elim {A} (m : M A) w Q :
  wp m w Q -> exists a w', m w = (Some a, w') /\ Q a w'.
Proof. unfold wp. destruct (m w) as [[a|] w']; [eauto|done]. Qed.

Lemma ranking_ne_player mode mode' name : ranking_key mode ≠ player_key mode' name.
Proof. discriminate. Qed.

Lemma zset_at_insert (st : store) k z : zset_at (<[k := RZSet z]> st) k = Some z.
Proof. unfold zset_at. by rewrite lookup_insert_eq. Qed.

Lemma zset_at_put (st : store) k z : zset_at (put_zset k z st) k = Some z.
Proof.
  unfold zset_at, put_zset. case_decide; subst.
  - by rewrite lookup_delete_eq.
  - by rewrite lookup_insert_eq.
Qed.

Lemma lookup_put_ne (st : store) k k' z : k ≠ k' -> put_zset k z st !! k' = st !! k'.
Proof.
  intros. unfold put_zset. case_decide.
  - by rewrite lookup_delete_ne.
  - by rewrite lookup_insert_ne.
Qed.

Lemma zset_at_ne (st st' : store) k : st' !! k = st !! k -> zset_at st' k = zset_at st k.
Proof. unfold zset_at. by intros ->. Qed.

Lemma wp_ZREM k m w z Q :
  zset_at (db w) k = Some z ->
  (forall n st, zset_at st k = Some (delete m z) ->
                (forall k', k' ≠ k -> st !! k' = db w !! k') ->
                Q n (World st (trace w ++ [CZrem k m]))) ->
  wp (cmd_ZREM k m) w Q.
Proof.
  intros Hz HQ. unfold cmd_ZREM, ZREM.
  destruct (z !! m) eqn:Hm.
  - eapply wp_write; [by rewrite Hz, Hm|]. apply HQ.
    + apply zset_at_put.
    + intros. by apply lookup_put_ne.
  - eapply wp_write; [by rewrite Hz, Hm|]. apply HQ; [|done].
    by rewrite delete_id.
Qed.

Lemma wp_ZADD k s m w z Q :
  zset_at (db w) k = Some z ->
  (forall n, Q n (World (<[k := RZSet (<[m := s]> z)]> (db w)) (trace w ++ [CZadd k s m]))) ->
  wp (cmd_ZADD k s m) w Q.
Proof.
  intros Hz HQ. unfold cmd_ZADD, ZADD. eapply wp_write; [by rewrite Hz|]. apply HQ.
Qed.

Lemma wp_SET k v w Q :
  Q tt (World (<[k := RString v]> (db w)) (trace w ++ [CSet k v])) -> wp (cmd_SET k v) w Q.
Proof. intros. by eapply wp_write. Qed.

Lemma wp_ZCARD k w z Q :
  zset_at (db w) k = Some z -> Q (Z.of_nat (size z)) (sent w (CZcard k)) -> wp (cmd_ZCARD k) w Q.
Proof. intros Hz HQ. eapply wp_read; [|done]. unfold ZCARD. by rewrite Hz. Qed.

Lemma wp_ZREMRANGEBYRANK k a b w z Q :
  zset_at (db w) k = Some z ->
  (forall n st, zset_at st k = Some (list_to_map (unslice (zset_asc z) a b)) ->
                (forall k', k' ≠ k -> st !! k' = db w !! k') ->
                Q n (World st (trace w ++ [CZremrangebyrank k a b]))) ->
  wp (cmd_ZREMRANGEBYRANK k a b) w Q.
Proof.
  intros Hz HQ. unfold cmd_ZREMRANGEBYRANK, ZREMRANGEBYRANK.
  eapply wp_write; [by rewrite Hz|]. apply HQ.
  - apply zset_at_put.
  - intros. by apply lookup_put_ne.
Qed.

Lemma wp_ZREVRANK k m w z Q :
  zset_at (db w) k = Some z ->
  Q (match list_find (fun e : elt => e.1 = m) (zset_desc z) with
     | Some (i, _) => Some (Z.of_nat i)
     | None => None
     end) (sent w (CZrevrank k m)) ->
  wp (cmd_ZREVRANK k m) w Q.
Proof. intros Hz HQ. eapply wp_read; [|done]. unfold ZREVRANK. by rewrite Hz. Qed.

Lemma wp_ZREVRANGE k a b w z Q :
  zset_at (db w) k = Some z ->
  Q (with_scores (slice (zset_desc z) a b)) (sent w (CZrevrange k a b)) ->
  wp (cmd_ZREVRANGE k a b) w Q.
Proof. intros Hz HQ. eapply wp_read; [|done]. unfold ZREVRANGE. by rewrite Hz. Qed.

Lemma wp_ZRANGE k a b w z Q :
  zset_at (db w) k = Some z ->
  Q (with_scores (slice (zset_asc z) a b)) (sent w (CZrange k a b)) ->
  wp (cmd_ZRANGE k a b) w Q.
Proof. intros Hz HQ. eapply wp_read; [|done]. unfold ZRANGE. by rewrite Hz. Qed.

Lemma wp_ZSCORE k m w z Q :
  zset_at (db w) k = Some z -> Q (z !! m) (sent w (CZscore k m)) -> wp (cmd_ZSCORE k m) w Q.
Proof. intros Hz HQ. eapply wp_read; [|done]. unfold ZSCORE. by rewrite Hz. Qed.

Lemma wp_EXISTS k w Q :
  Q (EXISTS k (db w)) (sent w (CExists k)) -> wp (cmd_EXISTS k) w Q.
Proof. intros. by eapply wp_read. Qed.

Lemma wp_GET k w v Q :
  GET k (db w) = Some v -> Q v (sent w (CGet k)) -> wp (cmd_GET k) w Q.
Proof. intros. by eapply wp_read. Qed.

Lemma submit_accepted today mode name score acc eff w ev ex z0 :
  GET (player_key mode name) (db w) = Some ev ->
  check_existing ev eff = Some ex ->
  zset_at (db w) (ranking_key mode) = Some z0 ->
  let str := JSON_stringify (scoreData name score acc eff today) in
  let z := zset_trimmed (zset_inserted z0 ex str eff) in
  wp (submit today mode name score acc eff) w
     (fun r w' => r = Updated (rank_of z str) /\ accepted mode name str ex eff z w w').
Proof.
  intros Hget Hck Hz str z. unfold submit. cbv zeta. fold str. clearbody str.
  apply wp_bind. eapply wp_GET; [done|]. rewrite Hck.
  apply wp_bind.
  set (z1 := match ex with Some e => delete (JSON_stringify e) z0 | None => z0 end).
  assert (Hstep1 : forall Q,
    (forall n st tr, zset_at st (ranking_key mode) = Some z1 ->
       (forall k', k' ≠ ranking_key mode -> st !! k' = db w !! k') ->
       tr = trace w ++ CGet (player_key mode name)
            :: match ex with
               | Some e => [CZrem (ranking_key mode) (JSON_stringify e)]
               | None => []
               end ->
       Q n (World st tr)) ->
    wp (match ex with
        | Some e => cmd_ZREM (ranking_key mode) (JSON_stringify e)
        | None => ret 0
        end) (sent w (CGet (player_key mode name))) Q).
  { intros Q HQ. destruct ex as [e|].
    - eapply wp_ZREM; [done|]. intros n st H1 H2. apply HQ; try done.
      simpl. by rewrite <- app_assoc.
    - apply wp_ret. apply HQ; try done. }
  apply Hstep1. clear Hstep1. intros _ st1 tr1 Hz1 Hf1 Htr1.
  apply wp_bind. eapply wp_ZADD; [exact Hz1|]. intros _.
  apply wp_bind. apply wp_SET. cbn [db trace].
  set (z2 := <[str := eff]> z1).
  set (st3 := <[player_key mode name := RString str]> (<[ranking_key mode := RZSet z2]> st1)).
  assert (Hz3 : zset_at st3 (ranking_key mode) = Some z2).
  { unfold st3, zset_at. rewrite lookup_insert_ne by (symmetry; apply ranking_ne_player).
    by rewrite lookup_insert_eq. }
  apply wp_bind. eapply wp_ZCARD; [exact Hz3|].
  apply wp_bind.
  assert (Hstep2 : forall tr Q,
    (forall n st tr', zset_at st (ranking_key mode) = Some (zset_trimmed z2) ->
       (forall k', k' ≠ ranking_key mode -> st !! k' = st3 !! k') ->
       (exists t, tr' = tr ++ t /\ Forall (fun c => forall k m, c ≠ CZrem k m) t) ->
       Q n (World st tr')) ->
    wp (if Z.of_nat (size z2) >? 50 then cmd_ZREMRANGEBYRANK (ranking_key mode) 50 (-1)
        else ret 0) (World st3 tr) Q).
  { intros tr Q HQ. unfold zset_trimmed in *. destruct (_ >? 50).
    - eapply wp_ZREMRANGEBYRANK; [exact Hz3|]. intros n st H1 H2. apply HQ; try done.
      eexists; split; [done|]. by repeat constructor.
    - apply wp_ret. apply HQ; try done. exists []. by rewrite app_nil_r. }
  apply Hstep2. clear Hstep2. intros _ st4 tr4 Hz4 Hf4 (t4 & -> & Ht4).
  apply wp_bind. eapply wp_ZREVRANK; [exact Hz4|].
  apply wp_bind. eapply wp_ZCARD; [exact Hz4|].
  apply wp_bind. eapply wp_ZREVRANGE; [exact Hz4|].
  apply wp_bind.
  match goal with |- wp ?cmd ?w0 _ =>
    assert (Hstep3 : forall Q,
      (forall r c, trace c = trace w0 \/ (exists k' m', trace c = trace w0 ++ [CZscore k' m']) ->
                 db c = db w0 -> Q r c) -> wp cmd w0 Q) end.
  { intros Q HQ. destruct (is_nil _); [|destruct (found_in _ _ _)].
    - apply wp_ret. apply HQ; auto.
    - apply wp_ret. apply HQ; auto.
    - eapply wp_ZSCORE; [exact Hz4|]. apply HQ; simpl; eauto. }
  apply Hstep3. clear Hstep3. intros _ c Htr Hdb.
  apply wp_ret. split.
  { unfold rank_of. fold z2. fold z. by destruct (list_find _ _) as [[??]|]. }
  destruct c as [dbc trc]. simpl in Htr, Hdb. subst dbc. split; cbn [db trace].
  - rewrite Hf4 by (symmetry; apply ranking_ne_player). unfold st3. by rewrite lookup_insert_eq.
  - done.
  - intros k Hk1 Hk2. rewrite Hf4 by done. unfold st3.
    rewrite !lookup_insert_ne by done. by apply Hf1.
  - subst tr1.
    assert (Hno : forall c : command, is_write c = false -> forall k m, c ≠ CZrem k m).
    { intros c0 H k m ->. discriminate. }
    destruct Htr as [-> | (k & m & ->)]; eexists; (split;
      [rewrite <- !app_assoc; simpl; rewrite <- ?app_assoc; simpl; reflexivity|]).
    all: repeat (first [apply Forall_nil_2 | apply Forall_cons_2 | apply Forall_app_2]);
      try done; by apply Hno.
Qed.

(** ** The outcomes of a submission *)

Lemma bounded_spec (st : store) :
  bounded st = true <-> forall k z, st !! k = Some (RZSet z) -> (size z <= 50)%nat.
Proof.
  unfold bounded. rewrite forallb_forall. split.
  - intros H k z Hk. specialize (H (k, RZSet z)). simpl in H.
    apply Nat.leb_le, H. apply list_elem_of_In. by apply elem_of_map_to_list.
  - intros H [k v] Hin. apply list_elem_of_In, elem_of_map_to_list in Hin.
    destruct v as [s|z]; [done|]. simpl. apply Nat.leb_le. eauto.
Qed.

Lemma unslice_50 {A} (l : list A) : (50 < length l)%nat -> unslice l 50 (-1) = take 50 l.
Proof.
  intros H. unfold unslice, range_bounds.
  replace (50 <? 0) with false by done. replace (-1 <? 0) with true by done.
  rewrite Z.min_l by lia.
  destruct (Z.ltb_spec (-1 + Z.of_nat (length l)) 50); [lia|].
  replace (Z.to_nat 50) with 50%nat by done.
  rewrite drop_ge by lia. by rewrite app_nil_r.
Qed.

Lemma take_asc_nodup z n : NoDup (take n (zset_asc z)).*1.
Proof.
  rewrite fmap_take. eapply sublist_NoDup; [apply zset_asc_nodup|apply sublist_take].
Qed.

Lemma size_trimmed z : (size (zset_trimmed z) <= 50)%nat.
Proof.
  unfold zset_trimmed. destruct (Z.gtb_spec (Z.of_nat (size z)) 50) as [H|H]; [|lia].
  rewrite unslice_50 by (rewrite zset_asc_length; lia).
  rewrite map_size_list_to_map by apply take_asc_nodup.
  rewrite length_take. lia.
Qed.

Lemma submit_rejected today mode name score acc eff w ev :
  GET (player_key mode name) (db w) = Some ev ->
  check_existing ev eff = None ->
  submit today mode name score acc eff w = (Some NotUpdated, sent w (CGet (player_key mode name))).
Proof. intros H1 H2. unfold submit, bind, cmd_GET, read. by rewrite H1, H2. Qed.

Lemma submit_get_error today mode name score acc eff w :
  GET (player_key mode name) (db w) = None ->
  submit today mode name score acc eff w = (None, sent w (CGet (player_key mode name))).
Proof. intros H1. unfold submit, bind, cmd_GET, read. by rewrite H1. Qed.

Lemma submit_type_error today mode name score acc eff w ev ex :
  GET (player_key mode name) (db w) = Some ev ->
  check_existing ev eff = Some ex ->
  zset_at (db w) (ranking_key mode) = None ->
  exists w', submit today mode name score acc eff w = (None, w') /\ db w' = db w.
Proof.
  intros H1 H2 H3. unfold submit, bind, cmd_GET, read. rewrite H1, H2.
  destruct ex as [e|]; unfold cmd_ZREM, cmd_ZADD, write, ret, ZREM, ZADD; simpl; rewrite H3; eauto.
Qed.

(** Every way a submission can end. *)
Lemma submit_cases today mode name score acc eff w r w' :
  handle (submit today mode name score acc eff) w = (r, w') ->
  (db w' = db w /\ (r = NotUpdated \/ r = ServerError))
  \/ exists ev ex z0,
       GET (player_key mode name) (db w) = Some ev
       /\ check_existing ev eff = Some ex
       /\ zset_at (db w) (ranking_key mode) = Some z0
       /\ let str := JSON_stringify (scoreData name score acc eff today) in
          let z := zset_trimmed (zset_inserted z0 ex str eff) in
          r = Updated (rank_of z str) /\ accepted mode name str ex eff z w w'.
Proof.
  unfold handle. intros H.
  destruct (GET (player_key mode name) (db w)) as [ev|] eqn:Hget.
  2:{ rewrite submit_get_error in H by done. inversion H; subst. left. auto. }
  destruct (check_existing ev eff) as [ex|] eqn:Hck.
  2:{ rewrite (submit_rejected _ _ _ _ _ _ _ ev) in H by done. inversion H; subst. left. auto. }
  destruct (zset_at (db w) (ranking_key mode)) as [z0|] eqn:Hz.
  2:{ destruct (submit_type_error today mode name score acc eff w ev ex) as (w1 & Hs & Hdb); try done.
      rewrite Hs in H. inversion H; subst. left. auto. }
  right. exists ev, ex, z0. repeat (split; [done|]).
  pose proof (submit_accepted today mode name score acc eff w ev ex z0 Hget Hck Hz) as Hwp.
  apply wp_elim in Hwp as (a & w1 & Hs & Hr & Hacc). rewrite Hs in H. inversion H; subst. done.
Qed.


(** ** Ranks in a sorted set *)

Lemma filter_all {A} (P : A -> Prop) `{!forall x, Decision (P x)} (l : list A) :
  Forall P l -> filter P l = l.
Proof.
  induction 1 as [|x l Hx Hl IH]; [done|]. rewrite filter_cons_True by done. by rewrite IH.
Qed.

Lemma filter_none {A} (P : A -> Prop) `{!forall x, Decision (P x)} (l : list A) :
  Forall (fun x => ¬ P x) l -> filter P l = [].
Proof.
  induction 1 as [|x l Hx Hl IH]; [done|]. by rewrite filter_cons_False.
Qed.

Lemma elt_le_refl (a : elt) : elt_le a a.
Proof. destruct (total elt_le a a); done. Qed.

Lemma find_member (l1 l2 : list elt) m s :
  NoDup (l1 ++ (m, s) :: l2).*1 ->
  list_find (fun e : elt => e.1 = m) (l1 ++ (m, s) :: l2) = Some (length l1, (m, s)).
Proof.
  intros Hnd. rewrite fmap_app, fmap_cons in Hnd. apply NoDup_app in Hnd as (_ & Hdis & _).
  rewrite list_find_app_r.
  - simpl. by rewrite decide_True.
  - apply list_find_None, Forall_forall. intros e He Heq.
    apply (Hdis e.1); [by apply list_elem_of_fmap_2|]. rewrite Heq. by left.
Qed.

(** A member's position from the top is the number of members above it. *)
Lemma rank_of_member z m s :
  z !! m = Some s -> rank_of z m = Z.of_nat (ranked_above z m s) + 1.
Proof.
  intros Hm. apply zset_asc_elem, list_elem_of_split in Hm as (a1 & a2 & Hasc).
  pose proof (zset_asc_sorted z) as Hs. pose proof (zset_asc_nodup z) as Hnd.
  unfold rank_of, ranked_above, zset_desc.
  rewrite <- (zset_asc_perm z), Hasc in *.
  rewrite reverse_app, reverse_cons, <- app_assoc. simpl.
  rewrite find_member.
  2:{ assert (Hp : reverse a2 ++ (m, s) :: reverse a1 ≡ₚ a1 ++ (m, s) :: a2).
      { rewrite !reverse_Permutation, <- !Permutation_middle. f_equiv. apply (comm (++)). }
      by rewrite Hp. }
  rewrite length_reverse. do 2 f_equal.
  apply StronglySorted_app in Hs as (H12 & _ & Hs2). apply StronglySorted_inv in Hs2 as [_ H2].
  rewrite filter_app, filter_none, filter_cons_False, filter_all; [done|..].
  - apply Forall_forall. intros e He Hle.
    assert (e = (m, s)) as ->.
    { apply (anti_symm elt_le); [done|]. rewrite Forall_forall in H2. by apply H2. }
    rewrite fmap_app, fmap_cons in Hnd. apply NoDup_app in Hnd as (_ & _ & Hnd).
    apply NoDup_cons in Hnd as [Hnin _]. apply Hnin. by apply (list_elem_of_fmap_2 fst) in He.
  - intros H. apply H, elt_le_refl.
  - apply Forall_forall. intros e He H. apply H, H12; [done|by left].
Qed.

Lemma rank_of_absent z m : z !! m = None -> rank_of z m = 51.
Proof.
  intros Hm. unfold rank_of.
  destruct (list_find _ _) as [[i e]|] eqn:Hf; [|done].
  apply list_find_Some in Hf as (Hi & He & _). apply list_elem_of_lookup_2 in Hi.
  unfold zset_desc in Hi. rewrite elem_of_reverse in Hi. destruct e as [m' s].
  apply zset_asc_elem in Hi. simpl in He. congruence.
Qed.

Lemma filter_ext_elem {A} (P Q : A -> Prop) `{!forall x, Decision (P x)}
    `{!forall x, Decision (Q x)} (l : list A) :
  (forall x, x ∈ l -> P x <-> Q x) -> filter P l = filter Q l.
Proof.
  induction l as [|x l IH]; intros Hpq; [done|].
  assert (Hx : P x <-> Q x) by (apply Hpq; by left).
  assert (Hl : filter P l = filter Q l) by (apply IH; intros y Hy; apply Hpq; by right).
  destruct (decide (P x)).
  - rewrite !filter_cons_True by tauto. by rewrite Hl.
  - rewrite !filter_cons_False by tauto. done.
Qed.

(** Without a tie the members above are those of greater score. *)
Lemma ranked_above_no_tie z m s :
  (forall m' s', z !! m' = Some s' -> s' = s -> m' = m) ->
  ranked_above z m s = count_greater z s.
Proof.
  intros Htie. unfold ranked_above, count_greater. f_equal.
  apply filter_ext_elem. intros [m' s'] Hin. apply elem_of_map_to_list in Hin.
  rewrite elt_le_iff. simpl. specialize (Htie m' s' Hin).
  split.
  - intros Hn. destruct (num_lt_trichotomy s s') as [?|[?|?]]; [done| |].
    + exfalso. apply Hn. right. split; [done|]. rewrite Htie by done. apply str_lt_irrefl.
    + exfalso. apply Hn. by left.
  - intros Hlt [?|[? _]]; [by destruct (num_lt_asym _ _ Hlt)|].
    subst. by destruct (num_lt_irrefl s).
Qed.

(** ** [parseInt] reads back a printed integer *)

Lemma span_digits_all (s : string) :
  all_digits s = true -> span_digits s = (s, EmptyString).
Proof.
  intros H. rewrite <- (sapp_nil_r s) at 1. by apply span_digits_app.
Qed.

Lemma parseInt_digits (neg : bool) (ds : string) :
  all_digits ds = true -> is_empty ds = false ->
  parseInt (sign_str neg +:+ ds) = Some (if neg then - digits_value ds else digits_value ds).
Proof.
  intros Hd He. destruct ds as [|c r]; [discriminate|].
  pose proof (span_digits_all _ Hd) as Hsp.
  simpl in Hd. apply andb_true_iff in Hd as [Hc Hr].
  unfold parseInt.
  destruct neg; simpl sign_str; simpl String.append.
  all: destruct c as [[] [] [] [] [] [] [] []]; try discriminate Hc.
  all: cbn [skip].
  all: repeat match goal with
         | |- context [is_str_ws ?c] =>
             let b := eval vm_compute in (is_str_ws c) in change (is_str_ws c) with b
         end.
  all: cbv beta iota zeta.
  all: try (rewrite Hsp; reflexivity).
  all: destruct r as [|c2 r2]; [reflexivity|].
  all: cbn [all_digits] in Hr; apply andb_true_iff in Hr as [Hc2 Hr].
  all: destruct c2 as [[] [] [] [] [] [] [] []]; try discriminate Hc2.
  all: cbv beta iota zeta; rewrite Hsp; reflexivity.
Qed.

Lemma parseInt_print_int (z : Z) : parseInt (print_int z) = Some z.
Proof.
  destruct (print_int_shape z) as (ds & -> & [Hd He _] & Hv).
  rewrite parseInt_digits, Hv by done. f_equal.
  destruct (Z.ltb_spec z 0); lia.
Qed.

(** The score that the store replies is read back when it is an integer; an
    infinity is read as NaN. *)
Lemma parseInt_print_score (score : number) :
  parseInt (print_score score) = parseInt_number score.
Proof. destruct score as [z|[]]; [apply parseInt_print_int|reflexivity..]. Qed.

(** ** What GET answers *)

(** Induction over a list two elements at a time. *)
Lemma pair_ind {A} (P : list A -> Prop) :
  P [] -> (forall x, P [x]) -> (forall x y l, P l -> P (x :: y :: l)) -> forall l, P l.
Proof.
  intros H0 H1 H2.
  assert (H : forall l, P l /\ forall x, P (x :: l)).
  { induction l as [|y l [IH1 IH2]]; [by split|]. split; [apply IH2|]. intros x. by apply H2. }
  intros l. apply H.
Qed.

Lemma parse_entry_efficiency dataStr efficiencyStr :
  r_efficiency (parse_entry dataStr efficiencyStr) = parseInt efficiencyStr.
Proof.
  unfold parse_entry. destruct (JSON_parse dataStr) as [data|]; [|done].
  by destruct (get_prop data "name") as [?|], (get_prop data "score") as [?|],
    (get_prop data "accuracy") as [?|], (get_prop data "date") as [?|].
Qed.

Lemma parse_scores_lookup (scores : list string) (i : nat) (r : ranking) :
  parse_scores scores !! i = Some r ->
  exists dataStr efficiencyStr,
    scores !! (2 * i)%nat = Some dataStr
    /\ scores !! (2 * i + 1)%nat = Some efficiencyStr
    /\ r = parse_entry dataStr efficiencyStr.
Proof.
  revert i. induction scores as [|x|x y l IH] using pair_ind; intros i; [done..|].
  destruct i as [|i].
  - intros [= <-]. by exists x, y.
  - change (parse_scores (x :: y :: l) !! S i) with (parse_scores l !! i).
    intros H. apply IH in H as (d & e & H1 & H2 & ->). exists d, e.
    replace (2 * S i)%nat with (S (S (2 * i))) by lia.
    by replace (S (S (2 * i)) + 1)%nat with (S (S (2 * i + 1))) by lia.
Qed.

Lemma parse_scores_length (scores : list string) :
  length (parse_scores scores) = (length scores / 2)%nat.
Proof.
  induction scores as [|x|x y l IH] using pair_ind; [done..|].
  cbn [parse_scores length]. rewrite IH.
  change (S (S (length l))) with (1 * 2 + length l)%nat. 
  rewrite Nat.div_add_l by lia. lia.
Qed.

Lemma parse_scores_unpaired (scores : list string) :
  Nat.odd (length scores) = true ->
  parse_scores scores = parse_scores (take (length scores - 1) scores).
Proof.
  induction scores as [|x|x y l IH] using pair_ind; [done..|].
  cbn [length]. rewrite Nat.odd_succ_succ. intros H.
  replace (S (S (length l)) - 1)%nat with (S (S (length l - 1))).
  2:{ destruct l; [discriminate|]. simpl. lia. }
  simpl. f_equal. by apply IH.
Qed.

(** The reply of a range command WITHSCORES is read back pair by pair. *)
Lemma parse_scores_with_scores (l : list elt) :
  parse_scores (with_scores l) = (fun e : elt => parse_entry e.1 (print_score e.2)) <$> l.
Proof. induction l as [|e l IH]; [done|]. rewrite fmap_cons, <- IH. done. Qed.

Lemma with_scores_nil (l : list elt) : is_nil (with_scores l) = true -> l = [].
Proof. by destruct l. Qed.

Lemma slice_all {A} (l : list A) : slice l 0 (-1) = l.
Proof.
  unfold slice, range_bounds. destruct l as [|x l]; [done|].
  replace (0 <? 0) with false by done. replace (-1 <? 0) with true by done.
  rewrite Z.min_r by lia.
  destruct (Z.ltb_spec (Z.of_nat (length (x :: l)) - 1) 0); [simpl in *; lia|].
  replace (Z.to_nat 0) with 0%nat by done. rewrite drop_0, take_ge; [done|]. simpl in *. lia.
Qed.

Lemma slice_top {A} (l : list A) (n : Z) : 0 <= n -> slice l 0 n = take (Z.to_nat (n + 1)) l.
Proof.
  intros Hn. unfold slice, range_bounds.
  replace (0 <? 0) with false by done. destruct (Z.ltb_spec n 0); [lia|].
  set (len := length l).
  destruct (Z.ltb_spec (Z.min n (Z.of_nat len - 1)) 0).
  - destruct l; [by rewrite take_nil|unfold len in *; simpl in *; lia].
  - replace (Z.to_nat 0) with 0%nat by done. rewrite drop_0.
    destruct (Z.le_ge_cases n (Z.of_nat len - 1)).
    + rewrite Z.min_l by lia. f_equal. lia.
    + rewrite Z.min_r by lia. rewrite !take_ge; [done|fold len; lia|fold len; lia].
Qed.

(** What GET answers: the top 50 of the mode, parsed. *)
Lemma fetch_spec (mode : string) (w : world) (z : zset) :
  zset_at (db w) (ranking_key (if is_empty mode then "flick" else mode)) = Some z ->
  exists w', fetch mode w
             = (Some (Rankings (parse_scores (with_scores (take 50 (zset_desc z))))), w')
             /\ db w' = db w.
Proof.
  intros Hz. unfold fetch. set (key := ranking_key _) in *.
  unfold bind at 1. unfold cmd_ZREVRANGE at 1, read at 1, ZREVRANGE. rewrite Hz. simpl option_map.
  rewrite slice_top by lia. change (Z.to_nat (49 + 1)) with 50%nat.
  destruct (is_nil (with_scores (take 50 (zset_desc z)))) eqn:Hnil.
  - pose proof (with_scores_nil _ Hnil) as Ht. rewrite Ht. 
    assert (Hd : zset_asc z = []).
    { unfold zset_desc in Ht. destruct (reverse (zset_asc z)) as [|e l] eqn:Hr; [|done].
      apply (f_equal reverse) in Hr. by rewrite reverse_involutive in Hr. }
    unfold bind, cmd_EXISTS, cmd_ZCARD, cmd_ZRANGE, read, ret, ZCARD, ZRANGE. simpl.
    destruct (EXISTS key (db w) =? 1); simpl; [|by eauto].
    rewrite Hz. simpl. rewrite slice_all, Hd. simpl. eauto.
  - unfold bind, ret. simpl. rewrite Hnil. eauto.
Qed.

Lemma fetch_type_error (mode : string) (w : world) :
  zset_at (db w) (ranking_key (if is_empty mode then "flick" else mode)) = None ->
  exists w', fetch mode w = (None, w') /\ db w' = db w.
Proof.
  intros Hz. unfold fetch, bind at 1, cmd_ZREVRANGE at 1, read at 1, ZREVRANGE.
  rewrite Hz. simpl. eauto.
Qed.

(** * The claims *)



Lemma trimmed_lookup z m s : zset_trimmed z !! m = Some s -> z !! m = Some s.
Proof.
  unfold zset_trimmed. destruct (Z.gtb_spec (Z.of_nat (size z)) 50) as [H|H]; [|done].
  rewrite unslice_50 by (rewrite zset_asc_length; lia). intros Hl.
  apply elem_of_list_to_map in Hl; [|apply take_asc_nodup].
  apply zset_asc_elem. by eapply subseteq_take.
Qed.

(** C4: after an accepted submission the ranking of the mode holds at most
    50 members, and if no ranking of the store held more than 50 before,
    none does after any submission. *)
Theorem C4_at_most_50 (today mode name : string) (score : Z) (accuracy : Z * nat)
    (efficiency : Z) (w : world) (r : response) (w' : world) :
  handle (submit today mode name score accuracy efficiency) w = (r, w') ->
  (forall rank z, r = Updated rank -> db w' !! ranking_key mode = Some (RZSet z) ->
                  (size z <= 50)%nat)
  /\ (bounded (db w) = true -> bounded (db w') = true).
Proof.
  intros H. apply submit_cases in H as [[Hdb Hr] | (ev & ex & z0 & _ & _ & _ & Hr & Hacc)].
  - split; [|by rewrite Hdb]. intros rank z -> _. by destruct Hr.
  - destruct Hacc as [Hp Hz Hf _]. split.
    + intros rank z _ Hk. unfold zset_at in Hz. rewrite Hk in Hz. inversion Hz; subst.
      apply size_trimmed.
    + rewrite !bounded_spec. intros Hb k z Hk.
      destruct (decide (k = ranking_key mode)) as [->|Hne1].
      { unfold zset_at in Hz. rewrite Hk in Hz. inversion Hz; subst. apply size_trimmed. }
      destruct (decide (k = player_key mode name)) as [->|Hne2]; [congruence|].
      rewrite Hf in Hk by done. eauto.
Qed.

Lemma C4_witness :
  bounded (db (after (submit "2025/1/2" "tracking" "zed" 900 (90, 0%nat) 100) (w_players 50)))
  = true.
Proof.
  refine (proj2 (C4_at_most_50 "2025/1/2" "tracking" "zed" 900 (90, 0%nat) 100 (w_players 50)
                   (handle (submit "2025/1/2" "tracking" "zed" 900 (90, 0%nat) 100)
                           (w_players 50)).1 _ _) _).
  - unfold after. by destruct (handle _ _).
  - vm_compute; reflexivity.
Defined.

(** C5: the rank answered to an accepted submission is 51 when its entry is
    no longer in the ranking; otherwise it is one more than the number of
    members ranked above the entry: those with a greater efficiency, and
    those with the same efficiency whose member sorts after it. When no
    other member has the same efficiency this is one more than the number
    of members with a strictly greater efficiency. *)
Theorem C5_rank_counts_members_above (today mode name : string) (score : Z)
    (accuracy : Z * nat) (efficiency : Z) (w : world) (rank : Z) (w' : world) :
  handle (submit today mode name score accuracy efficiency) w = (Updated rank, w') ->
  let member := JSON_stringify (scoreData name score accuracy efficiency today) in
  exists z,
    zset_at (db w') (ranking_key mode) = Some z
    /\ (z !! member = None -> rank = 51)
    /\ (is_Some (z !! member) ->
        z !! member = Some (Int efficiency)
        /\ rank = 1 + Z.of_nat (ranked_above z member efficiency))
    /\ (is_Some (z !! member) ->
        (forall m s, z !! m = Some s -> s = Int efficiency -> m = member) ->
        rank = 1 + Z.of_nat (count_greater z efficiency)).
Proof.
  intros H member.
  apply submit_cases in H as [[_ [?|?]] | (ev & ex & z0 & _ & _ & _ & Hr & Hacc)]; [done..|].
  cbv zeta in Hr. fold member in Hr, Hacc.
  set (z := zset_trimmed (zset_inserted z0 ex member efficiency)) in *.
  injection Hr as ->. exists z. split; [apply Hacc|].
  assert (Heff : is_Some (z !! member) -> z !! member = Some (Int efficiency)).
  { intros [s Hs]. rewrite Hs. apply trimmed_lookup in Hs.
    unfold zset_inserted in Hs. rewrite lookup_insert_eq in Hs. congruence. }
  split; [apply rank_of_absent|]. split.
  - intros Hin. split; [auto|]. rewrite (rank_of_member z member efficiency) by auto. lia.
  - intros Hin Htie. rewrite (rank_of_member z member efficiency) by auto.
    rewrite ranked_above_no_tie by done. lia.
Qed.

Lemma C5_witness :
  exists z,
    zset_at (db (after (submit "2025/1/2" "flick" "Alice" 900 (90, 0%nat) 80) w_bob))
            (ranking_key "flick") = Some z
    /\ let member := JSON_stringify (scoreData "Alice" 900 (90, 0%nat) 80 "2025/1/2") in
       z !! member = Some (Int 80) /\ 2 = 1 + Z.of_nat (ranked_above z member 80).
Proof.
  destruct (C5_rank_counts_members_above "2025/1/2" "flick" "Alice" 900 (90, 0%nat) 80 w_bob 2
              (after (submit "2025/1/2" "flick" "Alice" 900 (90, 0%nat) 80) w_bob))
    as (z & Hz & _ & Hin & _).
  - vm_compute; reflexivity.
  - exists z. split; [exact Hz|]. apply Hin.
    assert (Hz' : zset_at (db (after (submit "2025/1/2" "flick" "Alice" 900 (90, 0%nat) 80) w_bob))
                    (ranking_key "flick")
                  = Some (<[JSON_stringify (scoreData "Alice" 900 (90, 0%nat) 80 "2025/1/2") := Int 80]>
                            (<[JSON_stringify (scoreData "Bob" 1000 (955, 1%nat) 80 "2025/1/1") := Int 80]> ∅)))
      by (vm_compute; reflexivity).
    rewrite Hz' in Hz. injection Hz as <-. rewrite lookup_insert_eq. by eexists.
Defined.

(** The claim as the specification words it fails on a tie. *)
Lemma C5_tie_counterexample :
  ¬ (forall (today mode name : string) (score : Z) (accuracy : Z * nat) (efficiency : Z)
            (w : world) (rank : Z) (w' : world) (z : zset),
        handle (submit today mode name score accuracy efficiency) w = (Updated rank, w') ->
        zset_at (db w') (ranking_key mode) = Some z ->
        is_Some (z !! JSON_stringify (scoreData name score accuracy efficiency today)) ->
        rank = 1 + Z.of_nat (count_greater z efficiency)).
Proof.
  intros H.
  specialize (H "2025/1/2" "flick" "Alice" 900 (90, 0%nat) 80 w_bob 2
                (after (submit "2025/1/2" "flick" "Alice" 900 (90, 0%nat) 80) w_bob)
                (<[JSON_stringify (scoreData "Alice" 900 (90, 0%nat) 80 "2025/1/2") := Int 80]>
                   (<[JSON_stringify (scoreData "Bob" 1000 (955, 1%nat) 80 "2025/1/1") := Int 80]> ∅))).
  assert (H2 : 2 = 1 + Z.of_nat (count_greater
                (<[JSON_stringify (scoreData "Alice" 900 (90, 0%nat) 80 "2025/1/2") := Int 80]>
                   (<[JSON_stringify (scoreData "Bob" 1000 (955, 1%nat) 80 "2025/1/1") := Int 80]> ∅)) 80)).
  { apply H.
    - vm_compute; reflexivity.
    - vm_compute; reflexivity.
    - rewrite lookup_insert_eq. by eexists. }
  vm_compute in H2. discriminate.
Qed.

(** C6: in the reply of the store the i-th entry is made of the elements
    [2i] and [2i+1], and its efficiency is the integer read from the score
    element, not a field of the member. *)
Theorem C6_score_half_is_the_efficiency (scores : list string) (i : nat) (r : ranking) :
  parse_scores scores !! i = Some r ->
  exists dataStr efficiencyStr,
    scores !! (2 * i)%nat = Some dataStr
    /\ scores !! (2 * i + 1)%nat = Some efficiencyStr
    /\ r = parse_entry dataStr efficiencyStr
    /\ r_efficiency r = parseInt efficiencyStr.
Proof.
  intros H. apply parse_scores_lookup in H as (d & e & H1 & H2 & ->).
  exists d, e. by rewrite parse_entry_efficiency.
Qed.

Lemma C6_witness :
  let member := JSON_stringify (scoreData "Alice" 1000 (955, 1%nat) 999 "2025/1/1") in
  stored_efficiency member = Some (JInt 999)
  /\ exists dataStr efficiencyStr,
       [member; "80"] !! (2 * 0)%nat = Some dataStr
       /\ [member; "80"] !! (2 * 0 + 1)%nat = Some efficiencyStr
       /\ parse_entry member "80" = parse_entry dataStr efficiencyStr
       /\ r_efficiency (parse_entry member "80") = parseInt efficiencyStr.
Proof.
  intros member. split; [vm_compute; reflexivity|].
  apply (C6_score_half_is_the_efficiency [member; "80"] 0 (parse_entry member "80")).
  reflexivity.
Defined.

Lemma StronglySorted_reverse {A} (R : relation A) (l : list A) :
  StronglySorted R l -> StronglySorted (flip R) (reverse l).
Proof.
  induction 1 as [|x l Hl IH Hx]; [constructor|].
  rewrite reverse_cons. apply StronglySorted_app. split; [|split; [done|]].
  - intros a b Ha Hb. apply list_elem_of_singleton in Hb as ->.
    rewrite elem_of_reverse in Ha. rewrite Forall_forall in Hx. by apply Hx.
  - repeat constructor.
Qed.

Lemma StronglySorted_take {A} (R : relation A) (n : nat) (l : list A) :
  StronglySorted R l -> StronglySorted R (take n l).
Proof.
  intros H. rewrite <- (take_drop n l) in H. by apply StronglySorted_app in H as (_ & ? & _).
Qed.

Lemma elt_le_score (a b : elt) :
  elt_le a b -> is_finite a.2 = true -> is_finite b.2 = true ->
  int_score a.2 <= int_score b.2.
Proof.
  rewrite elt_le_iff. destruct a as [ma [x|?]], b as [mb [y|?]]; try discriminate.
  simpl. rewrite num_lt_int. intros [?|[[= ->] _]] _ _; lia.
Qed.

Lemma sorted_int_scores (l : list elt) :
  StronglySorted (flip elt_le) l ->
  Forall (fun e : elt => is_finite e.2 = true) l ->
  StronglySorted (fun x y => y <= x) ((fun e : elt => int_score e.2) <$> l).
Proof.
  induction 1 as [|e l Hl IH He]; intros Hfin; [constructor|].
  apply Forall_cons in Hfin as [Hfe Hfl]. rewrite fmap_cons. constructor; [by apply IH|].
  apply Forall_fmap, Forall_forall. intros e' Hin. simpl.
  rewrite Forall_forall in He, Hfl. apply elt_le_score; [by apply He|by apply Hfl|done].
Qed.

Lemma safe_is_finite (score : number) : safe_integer score = true -> is_finite score = true.
Proof. by destruct score. Qed.

Lemma safe_scores_spec (st : store) (k : string) (z : zset) :
  safe_scores st k = true -> zset_at st k = Some z ->
  Forall (fun e : elt => safe_integer e.2 = true) (zset_asc z).
Proof.
  unfold safe_scores, zset_at. intros Hs Hz. rewrite zset_asc_perm.
  destruct (st !! k) as [[?|z']|]; simplify_eq.
  - apply Forall_forall. intros e He. rewrite forallb_forall in Hs.
    apply Hs. by apply list_elem_of_In.
  - rewrite map_to_list_empty. constructor.
Qed.

(** C7: when every score of the mode's ranking is an integer of magnitude
    below [2^53], the entries that GET answers with all have an integer
    efficiency, and these are in descending order. *)
Theorem C7_fetch_is_ordered (mode : string) (w : world) (l : list ranking) (w' : world) :
  safe_scores (db w) (ranking_key (if is_empty mode then "flick" else mode)) = true ->
  handle (fetch mode) w = (Rankings l, w') ->
  exists es : list Z,
    r_efficiency <$> l = Some <$> es /\ Sorted (fun x y => y <= x) es.
Proof.
  unfold handle. intros Hsafe H.
  destruct (zset_at (db w) (ranking_key (if is_empty mode then "flick" else mode)))
    as [z|] eqn:Hz.
  2:{ apply fetch_type_error in Hz as (w1 & Hf & _). rewrite Hf in H. discriminate. }
  pose proof (safe_scores_spec _ _ _ Hsafe Hz) as Hall.
  apply fetch_spec in Hz as (w1 & Hf & _). rewrite Hf in H. injection H as <- _.
  assert (Hfin : Forall (fun e : elt => is_finite e.2 = true) (take 50 (zset_desc z))).
  { apply Forall_take. unfold zset_desc. rewrite Forall_reverse.
    eapply Forall_impl; [exact Hall|]. intros e. apply safe_is_finite. }
  exists ((fun e : elt => int_score e.2) <$> take 50 (zset_desc z)). split.
  - rewrite parse_scores_with_scores, <- !list_fmap_compose.
    apply Forall_fmap_ext_1. eapply Forall_impl; [exact Hfin|].
    intros [m [x|?]]; [|discriminate]. intros _. simpl.
    by rewrite parse_entry_efficiency, parseInt_print_int.
  - apply StronglySorted_Sorted, sorted_int_scores; [|done].
    apply StronglySorted_take, StronglySorted_reverse, zset_asc_sorted.
Qed.

Lemma C7_witness :
  exists es : list Z,
    efficiencies (handle (fetch "tracking") (w_players 3)).1 = Some <$> es
    /\ Sorted (fun x y => y <= x) es.
Proof.
  apply (C7_fetch_is_ordered "tracking" (w_players 3)
           match (handle (fetch "tracking") (w_players 3)).1 with
           | Rankings l => l
           | _ => []
           end (handle (fetch "tracking") (w_players 3)).2).
  - vm_compute; reflexivity.
  - vm_compute; reflexivity.
Defined.

(** The claim as it is stated, for every store, fails when a score is an
    infinity: after Alice's 80, Carol's efficiency that overflowed to
    [Infinity] is stored with the score [inf], which GET reads as NaN, ahead
    of Alice's 80. *)
Lemma C7_infinity_counterexample :
  ¬ (forall (mode : string) (w : world) (l : list ranking) (w' : world),
        handle (fetch mode) w = (Rankings l, w') ->
        exists es : list Z,
          r_efficiency <$> l = Some <$> es /\ Sorted (fun x y => y <= x) es).
Proof.
  intros H.
  destruct (handle (fetch "flick") w_overflow) as [r w'] eqn:Hf.
  assert (Hr : efficiencies r = [None; Some 80]).
  { apply (f_equal fst) in Hf. cbn [fst] in Hf. subst r. vm_compute; reflexivity. }
  destruct r as [l| | | |]; try discriminate Hr.
  destruct (H "flick" w_overflow l w' Hf) as (es & Hes & _).
  cbn [efficiencies] in Hr. rewrite Hr in Hes.
  destruct es as [|e es]; discriminate Hes.
Qed.

(** C8: on a reply of odd length the loop yields one entry for each full
    pair and nothing for the last, unpaired element: the result is that of
    the reply without its last element. *)
Theorem C8_unpaired_element_is_dropped (scores : list string) :
  Nat.odd (length scores) = true ->
  length (parse_scores scores) = (length scores / 2)%nat
  /\ parse_scores scores = parse_scores (take (length scores - 1) scores)
  /\ forall i r, parse_scores scores !! i = Some r ->
       exists dataStr efficiencyStr,
         scores !! (2 * i)%nat = Some dataStr
         /\ scores !! (2 * i + 1)%nat = Some efficiencyStr
         /\ r = parse_entry dataStr efficiencyStr.
Proof.
  intros H. split; [apply parse_scores_length|]. split; [by apply parse_scores_unpaired|].
  apply parse_scores_lookup.
Qed.

Lemma C8_witness :
  length (parse_scores ["Alice"; "80"; "Bob"]) = 1%nat
  /\ parse_scores ["Alice"; "80"; "Bob"] = parse_scores ["Alice"; "80"].
Proof.
  destruct (C8_unpaired_element_is_dropped ["Alice"; "80"; "Bob"]) as (H1 & H2 & _).
  - reflexivity.
  - split; [exact H1|exact H2].
Defined.

Lemma reset_loop_spec (ms : list string) :
  NoDup (ranking_key <$> ms) ->
  forall (deletedKeys : list string) (w : world),
  exists w' tr,
    reset_loop ms deletedKeys w
    = (Some (deletedKeys ++ existing_keys (db w) (ranking_key <$> ms)), w')
    /\ trace w' = trace w ++ tr
    /\ writes tr = CDel <$> existing_keys (db w) (ranking_key <$> ms)
    /\ (forall k, k ∈ ranking_key <$> ms -> db w' !! k = None)
    /\ (forall k, k ∉ ranking_key <$> ms -> db w' !! k = db w !! k).
Proof.
  induction ms as [|m ms IH]; intros Hnd acc w.
  - exists w, []. cbn. rewrite !app_nil_r. do 3 (split; [done|]). split; [|done].
    intros k Hk. by apply elem_of_nil in Hk.
  - rewrite fmap_cons in Hnd. apply NoDup_cons in Hnd as [Hnin Hnd].
    specialize (IH Hnd). cbn [reset_loop]. unfold bind at 1, cmd_EXISTS at 1, read at 1, EXISTS.
    cbn [db trace]. rewrite fmap_cons. unfold existing_keys. 
    destruct (db w !! ranking_key m) as [v|] eqn:Hm.
    + rewrite filter_cons_True by (by rewrite Hm). cbn [Z.eqb Pos.eqb].
      unfold bind at 1, cmd_DEL at 1, write at 1, DEL. cbn [db trace].
      set (w1 := World _ _).
      destruct (IH (acc ++ [ranking_key m]) w1) as (w' & tr & Hrun & Htr & Hw & Hin & Hout).
      assert (Hsame : existing_keys (db w1) (ranking_key <$> ms)
                      = existing_keys (db w) (ranking_key <$> ms)).
      { unfold existing_keys. apply filter_ext_elem. intros k Hk. subst w1. cbn [db].
        rewrite lookup_delete_ne; [done|]. by intros <-. }
      fold (existing_keys (db w) (ranking_key <$> ms)).
      rewrite Hsame in Hrun, Hw.
      exists w', ([CExists (ranking_key m); CDel (ranking_key m)] ++ tr).
      rewrite Hrun, <- app_assoc. split; [done|]. split.
      { rewrite Htr. subst w1. cbn [trace]. by rewrite <- !app_assoc. }
      split; [|split].
      * unfold writes in *. rewrite filter_app, Hw. done.
      * intros k Hk. apply elem_of_cons in Hk as [->|Hk]; [|by apply Hin].
        rewrite Hout by done. subst w1. cbn [db]. apply lookup_delete_eq.
      * intros k Hk. apply not_elem_of_cons in Hk as [Hk1 Hk2].
        rewrite Hout by done. subst w1. cbn [db]. by apply lookup_delete_ne.
    + rewrite filter_cons_False by (rewrite Hm; by intros [? ?]). cbn [Z.eqb].
      set (w1 := World _ _).
      destruct (IH acc w1) as (w' & tr & Hrun & Htr & Hw & Hin & Hout).
      exists w', (CExists (ranking_key m) :: tr).
      rewrite Hrun. split; [done|]. split.
      { rewrite Htr. subst w1. cbn [trace]. by rewrite <- !app_assoc. }
      split; [|split].
      * unfold writes in *. rewrite filter_cons_False by done. exact Hw.
      * intros k Hk. apply elem_of_cons in Hk as [->|Hk]; [|by apply Hin].
        rewrite Hout by done. subst w1. done.
      * intros k Hk. apply not_elem_of_cons in Hk as [Hk1 Hk2].
        rewrite Hout by done. subst w1. done.
Qed.

Lemma player_key_not_ranking (mode name : string) (ms : list string) :
  player_key mode name ∉ ranking_key <$> ms.
Proof.
  intros H. apply list_elem_of_fmap in H as (m & Heq & _). discriminate.
Qed.

(** C9: the reset of all rankings answers with the ranking keys that
    existed, deletes exactly these, leaves the three ranking keys absent and
    every other key, the players' bests among them, as it was. *)
Theorem C9_reset_all_clears_the_rankings_only (w : world) :
  let keys := ranking_key <$> modes in
  let deletedKeys := existing_keys (db w) keys in
  exists w' tr,
    handle reset_all w = (ResetDone deletedKeys, w')
    /\ trace w' = trace w ++ tr
    /\ writes tr = CDel <$> deletedKeys
    /\ (forall k, k ∈ keys -> db w' !! k = None)
    /\ (forall k, k ∉ keys -> db w' !! k = db w !! k)
    /\ (forall mode name, db w' !! player_key mode name = db w !! player_key mode name).
Proof.
  intros keys deletedKeys.
  assert (Hnd : NoDup (ranking_key <$> modes)).
  { apply (bool_decide_unpack _). by vm_compute. }
  destruct (reset_loop_spec modes Hnd [] w) as (w' & tr & Hrun & Htr & Hw & Hin & Hout).
  exists w', tr. unfold handle, reset_all, bind. rewrite Hrun. cbn [app ret].
  repeat (split; [done|]). intros mode name. apply Hout, player_key_not_ranking.
Qed.

Lemma check_existing_unusable (s : string) (efficiency : Z) :
  stored_efficiency s = None -> check_existing (Some s) efficiency = Some None.
Proof.
  unfold stored_efficiency, check_existing. intros H.
  destruct (is_empty s); [done|]. destruct (JSON_parse s) as [v|]; [|done].
  destruct (truthy v); [|done]. by destruct (get_prop v "efficiency") as [[e|]|].
Qed.

(** C10: a stored best that does not parse, or has no efficiency, counts as
    no best: the submission is accepted, the entry is added and stored as
    the best, and no member is removed from the ranking. *)
Theorem C10_unusable_best_is_no_best (today mode name : string) (score : Z)
    (accuracy : Z * nat) (efficiency : Z) (w : world) (s : string) (z0 : zset) :
  db w !! player_key mode name = Some (RString s) ->
  stored_efficiency s = None ->
  zset_at (db w) (ranking_key mode) = Some z0 ->
  let member := JSON_stringify (scoreData name score accuracy efficiency today) in
  exists rank w' tr,
    handle (submit today mode name score accuracy efficiency) w = (Updated rank, w')
    /\ trace w' = trace w ++ CGet (player_key mode name)
                  :: CZadd (ranking_key mode) efficiency member
                  :: CSet (player_key mode name) member :: tr
    /\ Forall not_zrem tr.
Proof.
  intros Hs Hu Hz member.
  pose proof (submit_accepted today mode name score accuracy efficiency w (Some s) None z0) as H.
  apply wp_elim in H as (r & w' & Hrun & -> & [_ _ _ (tr & Htr & Hno)]).
  - exists (rank_of (zset_trimmed (zset_inserted z0 None member efficiency)) member), w', tr.
    unfold handle. rewrite Hrun. done.
  - unfold GET. by rewrite Hs.
  - by apply check_existing_unusable.
  - done.
Qed.

Lemma C10_witness :
  exists rank w' tr,
    handle (submit "2025/1/2" "flick" "Alice" 900 (90, 0%nat) 70)
           (World (<["player:flick:Alice" := RString "Alice,80"]> ∅) [])
    = (Updated rank, w')
    /\ trace w' = CGet (player_key "flick" "Alice")
                  :: CZadd (ranking_key "flick") 70
                       (JSON_stringify (scoreData "Alice" 900 (90, 0%nat) 70 "2025/1/2"))
                  :: CSet (player_key "flick" "Alice")
                       (JSON_stringify (scoreData "Alice" 900 (90, 0%nat) 70 "2025/1/2"))
                  :: tr
    /\ Forall not_zrem tr.
Proof.
  apply (C10_unusable_best_is_no_best "2025/1/2" "flick" "Alice" 900 (90, 0%nat) 70
           (World (<["player:flick:Alice" := RString "Alice,80"]> ∅) []) "Alice,80" ∅).
  - vm_compute; reflexivity.
  - vm_compute; reflexivity.
  - vm_compute; reflexivity.
Defined.

(** C1: with 50 players holding the efficiencies 1 to 50 in a mode, the
    submission of a 51st player with efficiency 51 is answered rank 51, and
    the next GET of the mode lists the efficiencies 50 down to 1: the trim
    has removed the highest entry, not the lowest. *)
Lemma C1_trim_evicts_the_highest :
  (handle (submit "2025/1/1" "tracking" (player 51) 1000 (955, 1%nat) 51) (w_players 50)).1
  = Updated 51
  /\ efficiencies (handle (fetch "tracking") (w_players 51)).1
     = (fun i => Some (Z.of_nat i)) <$> reverse (seq 1 50).
Proof. split; vm_compute; reflexivity. Qed.

Lemma stored_efficiency_scoreData name score acc (eff : Z) date :
  stored_efficiency (JSON_stringify (scoreData name score acc eff date)) = Some (JInt eff).
Proof.
  unfold stored_efficiency.
  destruct (parse_scoreData name score acc eff date) as (m & k & ->). reflexivity.
Qed.

Lemma check_existing_scoreData name score acc (eff : Z) date (x : Z) :
  check_existing (Some (JSON_stringify (scoreData name score acc eff date))) x = None
  <-> x <= eff.
Proof.
  unfold check_existing.
  destruct (parse_scoreData name score acc eff date) as (m & k & ->).
  rewrite stringify_scoreData. cbn [is_empty].
  change (truthy (scoreData name score (m, k) eff date)) with true.
  change (get_prop (scoreData name score (m, k) eff date) "efficiency")
    with (Some (Some (JInt eff))).
  cbv beta iota. change (num_le (Int x) (JInt eff)) with (x * 10 ^ 0 <=? eff).
  rewrite Z.pow_0_r, Z.mul_1_r.
  destruct (Z.leb_spec x eff); split; intros; try done; lia.
Qed.

Lemma submit_answered today mode name score acc eff w r w' ev :
  handle (submit today mode name score acc eff) w = (r, w') ->
  answered r = true ->
  GET (player_key mode name) (db w) = Some ev ->
  (check_existing ev eff = None /\ db w' = db w)
  \/ (check_existing ev eff <> None
      /\ db w' !! player_key mode name
         = Some (RString (JSON_stringify (scoreData name score acc eff today)))).
Proof.
  unfold handle. intros H Ha Hget.
  destruct (check_existing ev eff) as [ex|] eqn:Hck.
  2:{ rewrite (submit_rejected _ _ _ _ _ _ _ ev) in H by done. injection H as <- <-. by left. }
  destruct (zset_at (db w) (ranking_key mode)) as [z0|] eqn:Hz.
  2:{ destruct (submit_type_error today mode name score acc eff w ev ex) as (w1 & Hs & _);
        try done. rewrite Hs in H. injection H as <- <-. discriminate. }
  pose proof (submit_accepted today mode name score acc eff w ev ex z0 Hget Hck Hz) as Hwp.
  apply wp_elim in Hwp as (a & w1 & Hs & _ & [Hp _ _ _]). rewrite Hs in H.
  injection H as <- <-. by right.
Qed.

Lemma num_max_int (x y : Z) : num_max (Int x) (Int y) = Int (Z.max x y).
Proof.
  unfold num_max. cbn [num_ltb]. destruct (Z.ltb_spec x y); f_equal; lia.
Qed.

(** While the player submits finite efficiencies, the player's key holds
    the entry of the best of them. *)
Lemma submit_all_best (mode name : string) (subs : list submission) :
  forall (w : world) (best : option Z) (rs : list response) (w' : world),
  forallb (fun s => is_finite (s_efficiency s)) subs = true ->
  holds_best (db w) mode name best ->
  submit_all mode name subs w = (rs, w') ->
  forallb answered rs = true ->
  exists best' : option Z,
    holds_best (db w') mode name best'
    /\ Int <$> best' = foldl max_so_far (Int <$> best) (s_efficiency <$> subs).
Proof.
  induction subs as [|[today score acc [x|?]] subs IH];
    intros w best rs w' Hfin Hb Hrun Hans; [| |discriminate Hfin].
  - injection Hrun as <- <-. by exists best.
  - cbn [submit_all s_today s_score s_accuracy s_efficiency] in Hrun.
    destruct (handle _ w) as [r w1] eqn:Hr.
    destruct (submit_all mode name subs w1) as [rs1 w2] eqn:Hrest.
    injection Hrun as <- <-. cbn [forallb] in Hans. apply andb_true_iff in Hans as [Ha Hans].
    rewrite fmap_cons. cbn [foldl s_efficiency].
    assert (Hstep : holds_best (db w1) mode name
                      (Some (match best with Some m => Z.max m x | None => x end))).
    { clear IH Hrest Hans. destruct best as [e|]; cbn [holds_best] in *.
      + destruct Hb as (d & sc & ac & Hb).
        assert (Hget : GET (player_key mode name) (db w)
                       = Some (Some (JSON_stringify (scoreData name sc ac e d))))
          by (unfold GET; by rewrite Hb).
        destruct (submit_answered _ _ _ _ _ _ _ _ _ _ Hr Ha Hget) as [[Hck ->] | [Hck Hp]].
        * apply check_existing_scoreData in Hck. rewrite Z.max_l by lia. eauto.
        * rewrite check_existing_scoreData in Hck. rewrite Z.max_r by lia. eauto.
      + assert (Hget : GET (player_key mode name) (db w) = Some None)
          by (unfold GET; by rewrite Hb).
        destruct (submit_answered _ _ _ _ _ _ _ _ _ _ Hr Ha Hget) as [[Hck ->] | [Hck Hp]].
        * discriminate.
        * eauto. }
    destruct (IH w1 _ rs1 w2 Hfin Hstep Hrest Hans) as (best' & Hb' & Heq).
    exists best'. split; [done|]. rewrite Heq. f_equal.
    destruct best as [e|]; [|done].
    change (Some (Int (Z.max e x)) = Some (num_max (Int e) (Int x))).
    by rewrite num_max_int.
Qed.

Lemma holds_best_efficiency (st : store) (mode name : string) (best : option Z) :
  holds_best st mode name best -> best_efficiency st mode name = Int <$> best.
Proof.
  unfold best_efficiency, GET. destruct best as [e|]; cbn [holds_best].
  - intros (d & sc & ac & ->). by rewrite stored_efficiency_scoreData.
  - by intros ->.
Qed.




(** * Further properties *)

(** ** Numbers parse back exactly *)

Lemma of_uint_acc_val (d : uint) (acc : positive) :
  Z.pos (Pos.of_uint_acc d acc) = uint_val d (Z.pos acc).
Proof.
  revert acc. induction d; intros acc; cbn [Pos.of_uint_acc uint_val]; [done|..];
    rewrite IHd; f_equal; lia.
Qed.

Lemma of_uint_val (d : uint) : Z.of_uint d = uint_val d 0.
Proof.
  unfold Z.of_uint. induction d; cbn [Pos.of_uint uint_val]; [done|exact IHd|..];
    cbn [Z.of_N]; rewrite of_uint_acc_val; f_equal.
Qed.

Lemma uint_of_digits (s : string) :
  all_digits s = true ->
  exists d, NilEmpty.uint_of_string s = Some d /\ forall acc, uint_val d acc = str_val s acc.
Proof.
  induction s as [|c s IH]; intros H.
  - by exists Nil.
  - cbn [all_digits] in H. apply andb_true_iff in H as [Hc Hs].
    destruct (IH Hs) as (d & Hd & Hv). cbn [NilEmpty.uint_of_string]. rewrite Hd.
    destruct c as [[] [] [] [] [] [] [] []]; try discriminate Hc.
    all: eexists; split; [reflexivity|]; intros acc; cbn [uint_val str_val]; rewrite Hv.
    all: match goal with
         | |- context [nat_of_ascii ?c] =>
             let v := eval vm_compute in (Z.of_nat (nat_of_ascii c) - 48) in
             change (Z.of_nat (nat_of_ascii c) - 48) with v
         end; f_equal; lia.
Qed.

Lemma digits_value_str_val (s : string) :
  all_digits s = true -> digits_value s = str_val s 0.
Proof.
  intros H. destruct (uint_of_digits s H) as (d & Hd & Hv).
  unfold digits_value. by rewrite Hd, of_uint_val.
Qed.

Lemma str_val_app (s1 s2 : string) (acc : Z) :
  str_val (s1 +:+ s2) acc = str_val s2 (str_val s1 acc).
Proof. revert acc. induction s1 as [|c s1 IH]; intros acc; [done|]. simpl. apply IH. Qed.

Lemma all_digits_app (s1 s2 : string) :
  all_digits s1 = true -> all_digits s2 = true -> all_digits (s1 +:+ s2) = true.
Proof.
  intros H1 H2. induction s1 as [|c s1 IH]; [done|]. simpl in *.
  apply andb_true_iff in H1 as [-> H1]. by apply IH.
Qed.

Lemma digit_char_value (d : Z) : Z.of_nat (nat_of_ascii (digit_char d)) - 48 = d mod 10.
Proof.
  unfold digit_char. pose proof (Z.mod_pos_bound d 10 ltac:(lia)).
  rewrite nat_ascii_embedding by lia. lia.
Qed.

Lemma str_val_frac (k : nat) (r acc : Z) :
  0 <= r < 10 ^ Z.of_nat k -> str_val (frac_digits k r) acc = acc * 10 ^ Z.of_nat k + r.
Proof.
  revert r acc. induction k as [|k IH]; intros r acc Hr.
  - cbn [frac_digits str_val]. change (10 ^ Z.of_nat 0) with 1 in *. lia.
  - cbn [frac_digits str_val]. rewrite digit_char_value.
    assert (Hp : 10 ^ Z.of_nat (S k) = 10 * 10 ^ Z.of_nat k).
    { rewrite Nat2Z.inj_succ, Z.pow_succ_r by lia. done. }
    pose proof (Z.pow_pos_nonneg 10 (Z.of_nat k) ltac:(lia) ltac:(lia)) as Hpos.
    rewrite Hp in *.
    pose proof (Z.div_mod r (10 ^ Z.of_nat k) ltac:(lia)) as Hdm.
    pose proof (Z.mod_pos_bound r (10 ^ Z.of_nat k) ltac:(lia)) as Hm.
    assert (Hq : 0 <= r / 10 ^ Z.of_nat k < 10).
    { split; [apply Z.div_pos; lia|]. apply Z.div_lt_upper_bound; lia. }
    rewrite (Z.mod_small (r / 10 ^ Z.of_nat k) 10) by lia. rewrite IH by lia. nia.
Qed.

Lemma length_frac_digits (k : nat) (r : Z) : String.length (frac_digits k r) = k.
Proof. revert r. induction k as [|k IH]; intros r; [done|]. cbn [frac_digits String.length]. by rewrite IH. Qed.

Lemma num_norm_idem (m : Z) (k : nat) :
  num_norm (num_norm m k).1 (num_norm m k).2 = num_norm m k.
Proof.
  revert m. induction k as [|k IH]; intros m; [done|].
  cbn [num_norm]. destruct (m mod 10 =? 0) eqn:H; [apply IH|].
  cbn [fst snd num_norm]. by rewrite H.
Qed.

Lemma is_empty_frac (k : nat) (r : Z) : is_empty (frac_digits (S k) r) = false.
Proof. done. Qed.

(** A printed number parses back to the number, without its trailing
    zeros. *)
Lemma parse_number_print_num_exact (m : Z) (k : nat) (rest : string) :
  delim rest ->
  parse_number (print_num m k +:+ rest)
  = Some (JNum (num_norm m k).1 (num_norm m k).2, rest).
Proof.
  intros Hr. unfold print_num. pose proof (num_norm_idem m k) as Hid.
  destruct (num_norm m k) as [m1 [|k1]]; cbn [fst snd] in *.
  - by apply parse_number_print_int.
  - set (p := 10 ^ Z.of_nat (S k1)).
    assert (Hp : 0 < p) by (apply Z.pow_pos_nonneg; lia).
    destruct (print_int_shape (Z.abs m1 / p)) as (ds & -> & Hds & Hv).
    assert (Hpos : (Z.abs m1 / p <? 0) = false).
    { apply Z.ltb_ge. apply Z.div_pos; lia. }
    rewrite Hpos. simpl sign_str. change (EmptyString +:+ ds) with ds.
    change ((if m1 <? 0 then String "-" EmptyString else EmptyString)) with (sign_str (m1 <? 0)).
    rewrite !sapp_assoc. change (String "." EmptyString +:+ ?x) with (String "." x).
    rewrite parse_number_frac_lit; try done; [|apply all_digits_frac].
    do 2 f_equal. unfold make_num.
    rewrite digits_value_str_val by (apply all_digits_app; [apply Hds|apply all_digits_frac]).
    rewrite str_val_app, <- digits_value_str_val by apply Hds.
    rewrite Hv, (Z.abs_eq (Z.abs m1 / p)) by (apply Z.div_pos; lia).
    rewrite str_val_frac by (apply Z.mod_pos_bound; lia).
    rewrite length_frac_digits. fold p.
    replace (Z.abs m1 / p * p + Z.abs m1 mod p) with (Z.abs m1)
      by (rewrite (Z.div_mod (Z.abs m1) p) at 1 by lia; lia).
    replace (if m1 <? 0 then - Z.abs m1 else Z.abs m1) with m1
      by (destruct (Z.ltb_spec m1 0); lia).
    destruct (Z.leb_spec (Z.of_nat (S k1) - 0) 0); [lia|].
    replace (Z.to_nat (Z.of_nat (S k1) - 0)) with (S k1) by lia.
    by rewrite Hid.
Qed.

(** ** Entries are written and read back *)

Lemma parse_value_num_exact (f : nat) (m : Z) (k : nat) (rest : string) :
  delim rest ->
  parse_value (S f) (print_num m k +:+ rest)
  = Some (JNum (num_norm m k).1 (num_norm m k).2, rest).
Proof.
  intros. rewrite parse_value_number by apply num_head_print_num.
  by apply parse_number_print_num_exact.
Qed.

(** The entry that [JSON.parse] returns for a serialized entry. *)
Lemma parse_scoreData_exact name score acc eff date :
  JSON_parse (JSON_stringify (scoreData name score acc eff date))
  = Some (scoreData name score (num_norm acc.1 acc.2) eff date).
Proof.
  unfold JSON_parse.
  remember (2 * String.length (JSON_stringify (scoreData name score acc eff date)) + 2)%nat
    as fuel eqn:Hf.
  rewrite stringify_scoreData in *.
  assert (Hfuel : (7 <= fuel)%nat) by (rewrite Hf; simpl; lia).
  clear Hf. do 7 (destruct fuel as [|fuel]; [lia|]).
  rewrite parse_value_object.
  erewrite parse_members_step by apply parse_value_string.
  erewrite parse_members_step by (apply parse_value_num_json, delim_comma).
  erewrite parse_members_step by (apply parse_value_num_exact, delim_comma).
  erewrite parse_members_step by (apply parse_value_num_json, delim_comma).
  erewrite parse_members_last by apply parse_value_string.
  by destruct (num_norm acc.1 acc.2).
Qed.

Lemma print_num_norm (m : Z) (k : nat) :
  print_num (num_norm m k).1 (num_norm m k).2 = print_num m k.
Proof.
  unfold print_num. rewrite num_norm_idem. by destruct (num_norm m k).
Qed.

(** Serializing the parsed entry gives the stored string again. *)
Lemma stringify_parsed_scoreData name score acc eff date :
  JSON_stringify (scoreData name score (num_norm acc.1 acc.2) eff date)
  = JSON_stringify (scoreData name score acc eff date).
Proof.
  rewrite !stringify_scoreData. cbn [fst snd].
  change (print_num (num_norm acc.1 acc.2).1 (num_norm acc.1 acc.2).2)
    with (print_num (num_norm acc.1 acc.2).1 (num_norm acc.1 acc.2).2).
  by rewrite print_num_norm.
Qed.

(** One entry: the member that a submission writes and its score as the
    store replies it parse back to what was submitted; an infinite score of
    the game comes back as [null], an infinite efficiency as NaN. *)
Lemma parse_entry_scoreData (name : string) (score : number) (accuracy : Z * nat)
    (efficiency : number) (date : string) :
  parse_entry (JSON_stringify (scoreData name score accuracy efficiency date))
              (print_score efficiency)
  = Ranking (Some (JStr name)) (Some (num_json score))
            (Some (JNum (num_norm accuracy.1 accuracy.2).1 (num_norm accuracy.1 accuracy.2).2))
            (parseInt_number efficiency) (Some (JStr date)).
Proof.
  unfold parse_entry. rewrite parse_scoreData_exact, parseInt_print_score. reflexivity.
Qed.



(** ** Sorted sets and their listings *)

Lemma zset_asc_of_sorted (l : list elt) :
  StronglySorted elt_le l -> NoDup l.*1 -> zset_asc (list_to_map l) = l.
Proof.
  intros Hs Hnd. apply (StronglySorted_unique elt_le); [apply zset_asc_sorted|done|].
  rewrite zset_asc_perm. by apply map_to_list_to_map.
Qed.

Lemma zset_asc_insert_top (z : zset) (m : string) (s : number) :
  z !! m = None ->
  map_Forall (fun _ s' => num_lt s' s) z ->
  zset_asc (<[m := s]> z) = zset_asc z ++ [(m, s)].
Proof.
  intros Hm Hlt. apply (StronglySorted_unique elt_le); [apply zset_asc_sorted| |].
  - apply StronglySorted_app. split; [|split; [apply zset_asc_sorted|repeat constructor]].
    intros [m1 s1] x2 H1 H2. apply list_elem_of_singleton in H2 as ->.
    apply zset_asc_elem in H1. apply elt_le_iff. left. simpl. by apply (Hlt m1).
  - rewrite !zset_asc_perm, map_to_list_insert by done.
    by rewrite <- Permutation_cons_append.
Qed.

Lemma take_take_asc (z : zset) (n : nat) :
  zset_asc (list_to_map (take n (zset_asc z))) = take n (zset_asc z).
Proof.
  apply zset_asc_of_sorted; [apply StronglySorted_take, zset_asc_sorted|apply take_asc_nodup].
Qed.

Lemma list_to_map_asc (z : zset) : list_to_map (zset_asc z) = z.
Proof.
  rewrite (list_to_map_proper _ (map_to_list z)); [apply list_to_map_to_list| |apply zset_asc_perm].
  apply zset_asc_nodup.
Qed.

(** The trim keeps the 50 members of lowest rank from the bottom. *)
Lemma zset_asc_trimmed (z : zset) :
  zset_asc (zset_trimmed z) = take 50 (zset_asc z).
Proof.
  unfold zset_trimmed. destruct (Z.gtb_spec (Z.of_nat (size z)) 50) as [H|H].
  - rewrite unslice_50 by (rewrite zset_asc_length; lia). apply take_take_asc.
  - rewrite take_ge; [done|]. rewrite zset_asc_length. lia.
Qed.

(** X2: whatever it answers, a submission changes no key of the store but
    the ranking of its mode and the best of its player. *)
Theorem submit_frame (today mode name : string) (score : Z) (accuracy : Z * nat)
    (efficiency : Z) (w : world) (r : response) (w' : world) (k : string) :
  handle (submit today mode name score accuracy efficiency) w = (r, w') ->
  k <> ranking_key mode -> k <> player_key mode name ->
  db w' !! k = db w !! k.
Proof.
  intros H Hk1 Hk2.
  apply submit_cases in H as [[-> _] | (ev & ex & z0 & _ & _ & _ & _ & Hacc)]; [done|].
  by apply Hacc.
Qed.

Lemma submit_frame_witness :
  db (after (submit "2025/1/2" "tracking" "Bob" 900 (90, 0%nat) 70) w_alice)
    !! player_key "flick" "Alice"
  = db w_alice !! player_key "flick" "Alice"
  /\ db (after (submit "2025/1/2" "tracking" "Bob" 900 (90, 0%nat) 70) w_alice)
       !! ranking_key "flick"
     = db w_alice !! ranking_key "flick".
Proof.
  split.
  - apply (submit_frame "2025/1/2" "tracking" "Bob" 900 (90, 0%nat) 70 w_alice
             (handle (submit "2025/1/2" "tracking" "Bob" 900 (90, 0%nat) 70) w_alice).1).
    + unfold after. by destruct (handle _ _).
    + vm_compute. discriminate.
    + vm_compute. discriminate.
  - apply (submit_frame "2025/1/2" "tracking" "Bob" 900 (90, 0%nat) 70 w_alice
             (handle (submit "2025/1/2" "tracking" "Bob" 900 (90, 0%nat) 70) w_alice).1).
    + unfold after. by destruct (handle _ _).
    + vm_compute. discriminate.
    + vm_compute. discriminate.
Defined.

Lemma zset_desc_length z : length (zset_desc z) = size z.
Proof. unfold zset_desc. by rewrite length_reverse, zset_asc_length. Qed.

Lemma rank_of_range (z : zset) (m : string) :
  (size z <= 50)%nat -> 1 <= rank_of z m <= 51.
Proof.
  intros Hs. unfold rank_of. destruct (list_find _ _) as [[i e]|] eqn:Hf; [|lia].
  apply list_find_Some in Hf as (Hi & _). apply lookup_lt_Some in Hi.
  rewrite zset_desc_length in Hi. lia.
Qed.

(** X3: the rank that an accepted submission is answered with is between 1
    and 51. *)
Theorem submit_rank_range (today mode name : string) (score : Z) (accuracy : Z * nat)
    (efficiency : Z) (w : world) (rank : Z) (w' : world) :
  handle (submit today mode name score accuracy efficiency) w = (Updated rank, w') ->
  1 <= rank <= 51.
Proof.
  intros H.
  apply submit_cases in H as [[_ [?|?]] | (ev & ex & z0 & _ & _ & _ & Hr & _)]; [done..|].
  injection Hr as ->. apply rank_of_range, size_trimmed.
Qed.

Lemma submit_rank_range_witness :
  (handle (submit "2025/1/2" "flick" "Alice" 900 (90, 0%nat) 80) w_bob).1 = Updated 2
  /\ 1 <= 2 <= 51.
Proof.
  split; [vm_compute; reflexivity|].
  apply (submit_rank_range "2025/1/2" "flick" "Alice" 900 (90, 0%nat) 80 w_bob 2
           (after (submit "2025/1/2" "flick" "Alice" 900 (90, 0%nat) 80) w_bob)).
  vm_compute; reflexivity.
Defined.

Lemma rank_of_lookup (z : zset) (m : string) (s : number) :
  z !! m = Some s -> zset_desc z !! Z.to_nat (rank_of z m - 1) = Some (m, s).
Proof.
  intros Hm. unfold rank_of.
  destruct (list_find _ _) as [[i [m' s']]|] eqn:Hf.
  - apply list_find_Some in Hf as (Hi & He & _). simpl in He. subst m'.
    replace (Z.to_nat (Z.of_nat i + 1 - 1)) with i by lia. rewrite Hi. do 2 f_equal.
    apply list_elem_of_lookup_2 in Hi. unfold zset_desc in Hi. rewrite elem_of_reverse in Hi.
    apply zset_asc_elem in Hi. congruence.
  - apply list_find_None in Hf. rewrite Forall_forall in Hf. exfalso.
    apply (Hf (m, s)); [|done]. unfold zset_desc. rewrite elem_of_reverse.
    by apply zset_asc_elem.
Qed.



Lemma check_existing_beaten name score acc (eff : Z) date (x : Z) :
  eff < x ->
  check_existing (Some (JSON_stringify (scoreData name score acc eff date))) x
  = Some (Some (scoreData name score (num_norm acc.1 acc.2) eff date)).
Proof.
  intros Hlt. unfold check_existing. rewrite parse_scoreData_exact.
  rewrite stringify_scoreData. cbn [is_empty].
  change (truthy (scoreData name score (num_norm acc.1 acc.2) eff date)) with true.
  change (get_prop (scoreData name score (num_norm acc.1 acc.2) eff date) "efficiency")
    with (Some (Some (JInt eff))).
  cbv beta iota. change (num_le (Int x) (JInt eff)) with (x * 10 ^ 0 <=? eff).
  rewrite Z.pow_0_r, Z.mul_1_r. by destruct (Z.leb_spec x eff); [lia|].
Qed.

Lemma scoreData_efficiency_inj n1 (s1 : Z) a1 (e1 : Z) d1 n2 (s2 : Z) a2 (e2 : Z) d2 :
  JSON_stringify (scoreData n1 s1 a1 e1 d1) = JSON_stringify (scoreData n2 s2 a2 e2 d2) ->
  n1 = n2 /\ s1 = s2 /\ e1 = e2 /\ d1 = d2.
Proof.
  intros H. apply (f_equal JSON_parse) in H. rewrite !parse_scoreData_exact in H.
  unfold scoreData, num_json in H. injection H as -> -> _ _ -> ->. done.
Qed.



(** X6: on a ranking of 50 or more entries that are all lower, a new
    player's submission is accepted with rank 51 and its entry is the one
    that the trim removes: the ranking keeps its 50 lowest entries. *)
Theorem best_score_on_full_board_is_evicted (today mode name : string) (score : Z)
    (accuracy : Z * nat) (efficiency : Z) (w : world) (z0 : zset) :
  let member := JSON_stringify (scoreData name score accuracy efficiency today) in
  db w !! player_key mode name = None ->
  zset_at (db w) (ranking_key mode) = Some z0 ->
  (50 <= size z0)%nat ->
  map_Forall (fun _ s => num_lt s efficiency) z0 ->
  z0 !! member = None ->
  exists w' z,
    handle (submit today mode name score accuracy efficiency) w = (Updated 51, w')
    /\ zset_at (db w') (ranking_key mode) = Some z
    /\ z !! member = None
    /\ zset_asc z = take 50 (zset_asc z0).
Proof.
  intros member Hp Hz Hsize Hlt Hm.
  pose proof (submit_accepted today mode name score accuracy efficiency w None None z0) as H.
  apply wp_elim in H as (r & w' & Hrun & -> & [_ Hzs _ _]); [|by unfold GET; rewrite Hp|done..].
  fold member in Hzs, Hrun |- *. unfold zset_inserted in *.
  set (z := zset_trimmed _) in *.
  assert (Hasc : zset_asc z = take 50 (zset_asc z0)).
  { unfold z. rewrite zset_asc_trimmed, zset_asc_insert_top by done.
    rewrite take_app_le; [done|]. rewrite zset_asc_length. lia. }
  assert (Hnone : z !! member = None).
  { destruct (z !! member) as [s|] eqn:Hs; [|done].
    apply zset_asc_elem in Hs. rewrite Hasc in Hs. apply subseteq_take in Hs.
    apply zset_asc_elem in Hs. congruence. }
  exists w', z. unfold handle. rewrite Hrun, (rank_of_absent z member Hnone). done.
Qed.

Lemma best_score_on_full_board_is_evicted_witness :
  exists w' z,
    handle (submit "2025/1/2" "tracking" "zed" 900 (90, 0%nat) 100) (w_players 50)
    = (Updated 51, w')
    /\ zset_at (db w') (ranking_key "tracking") = Some z
    /\ z !! JSON_stringify (scoreData "zed" 900 (90, 0%nat) 100 "2025/1/2") = None
    /\ zset_asc z
       = take 50 (zset_asc (default ∅ (zset_at (db (w_players 50)) (ranking_key "tracking")))).
Proof.
  apply (best_score_on_full_board_is_evicted "2025/1/2" "tracking" "zed" 900 (90, 0%nat) 100
           (w_players 50)
           (default ∅ (zset_at (db (w_players 50)) (ranking_key "tracking")))).
  - vm_compute; reflexivity.
  - assert (Hs : is_Some (zset_at (db (w_players 50)) (ranking_key "tracking")))
      by (apply (bool_decide_unpack _); vm_compute; reflexivity).
    destruct Hs as [z Hz]. by rewrite Hz.
  - vm_compute. lia.
  - apply (bool_decide_unpack _). vm_compute. reflexivity.
  - vm_compute; reflexivity.
Defined.

Lemma unslice_v1 {A} (l : list A) : unslice l 0 (-51) = drop (length l - 50) l.
Proof.
  unfold unslice, range_bounds.
  replace (0 <? 0) with false by done. replace (-51 <? 0) with true by done.
  set (n := length l).
  destruct (Z.ltb_spec (Z.min (-51 + Z.of_nat n) (Z.of_nat n - 1)) 0) as [H|H].
  - simpl. replace (n - 50)%nat with 0%nat by lia. done.
  - replace (Z.to_nat 0) with 0%nat by done. rewrite take_0. simpl. f_equal. lia.
Qed.

Lemma drop_asc_nodup z n : NoDup (drop n (zset_asc z)).*1.
Proof.
  rewrite fmap_drop. eapply sublist_NoDup; [apply zset_asc_nodup|apply sublist_drop].
Qed.

Lemma StronglySorted_drop {A} (R : relation A) (n : nat) (l : list A) :
  StronglySorted R l -> StronglySorted R (drop n l).
Proof.
  intros H. rewrite <- (take_drop n l) in H. by apply StronglySorted_app in H as (_ & _ & ?).
Qed.



(** X8: when the ranking key of the mode holds a plain string, the
    submission of a new player is answered with a server error and the
    store is left as it was. *)
Theorem submit_on_string_key_fails (today mode name : string) (score : Z)
    (accuracy : Z * nat) (efficiency : Z) (w : world) (s : string) :
  db w !! ranking_key mode = Some (RString s) ->
  db w !! player_key mode name = None ->
  exists w', handle (submit today mode name score accuracy efficiency) w = (ServerError, w')
             /\ db w' = db w.
Proof.
  intros Hk Hp.
  destruct (submit_type_error today mode name score accuracy efficiency w None None)
    as (w' & Hrun & Hdb).
  - unfold GET. by rewrite Hp.
  - done.
  - unfold zset_at. by rewrite Hk.
  - exists w'. unfold handle. by rewrite Hrun.
Qed.

Lemma submit_on_string_key_fails_witness :
  exists w',
    handle (submit "2025/1/2" "flick" "Alice" 900 (90, 0%nat) 70)
           (World (<["ranking:flick" := RString "x"]> ∅) [])
    = (ServerError, w')
    /\ db w' = db (World (<["ranking:flick" := RString "x"]> ∅) []).
Proof.
  apply (submit_on_string_key_fails "2025/1/2" "flick" "Alice" 900 (90, 0%nat) 70
           (World (<["ranking:flick" := RString "x"]> ∅) []) "x").
  - vm_compute; reflexivity.
  - vm_compute; reflexivity.
Defined.

(** ** DELETE and PUT: the administrator's requests *)

Lemma stringify_reduced (name : string) (e : json) :
  JSON_stringify (reduced_entry name e)
  = String "{" (quote "name" +:+ String ":" (quote name +:+ String ","
      (quote "efficiency" +:+ String ":"
         (JSON_stringify (int_or_null (parseInt_value e)) +:+ String "}" EmptyString)))).
Proof.
  unfold reduced_entry. cbn [JSON_stringify map join fst snd].
  rewrite !sapp_assoc. reflexivity.
Qed.

(** The member that DELETE and PUT look for is never one that Submit wrote. *)
Lemma reduced_is_not_submitted (name : string) (e : json) n score acc eff date :
  JSON_stringify (reduced_entry name e) <> JSON_stringify (scoreData n score acc eff date).
Proof.
  rewrite stringify_reduced, stringify_scoreData. intros H.
  injection H as H. rewrite !sapp_assoc in H.
  change (String "034" EmptyString +:+ ?x) with (String "034" x) in H.
  apply (f_equal parse_string_body) in H. rewrite !parse_string_escape in H.
  discriminate H.
Qed.

(** ** DELETE *)

(** What a successful DELETE of one score has done to the store. *)
Lemma delete_done (env authHeader : option string) (resetAll : bool)
    (mode name : string) (efficiency : jsval) (w w' : world) :
  handle_admin (delete_request env authHeader resetAll mode name efficiency) w
  = (ScoreDeleted, w') ->
  exists e z0,
    efficiency = Some e
    /\ authorized env authHeader = true
    /\ zset_at (db w) (ranking_key mode) = Some z0
    /\ db w' !! player_key mode name = None
    /\ zset_at (db w') (ranking_key mode)
       = Some (delete (JSON_stringify (reduced_entry name e)) z0)
    /\ (forall k, k <> ranking_key mode -> k <> player_key mode name ->
                  db w' !! k = db w !! k).
Proof.
  unfold handle_admin, delete_request. intros H.
  destruct (authorized env authHeader); [|discriminate H]. cbn [negb] in H.
  destruct resetAll.
  { unfold bind, ret in H. by destruct (reset_loop modes [] w) as [[x|] w1]. }
  destruct efficiency as [e|]; [|discriminate H].
  destruct (is_empty mode || is_empty name); [discriminate H|].
  destruct (zset_at (db w) (ranking_key mode)) as [z0|] eqn:Hz.
  2:{ unfold bind, cmd_ZREM, write, ZREM in H. rewrite Hz in H. discriminate H. }
  exists e, z0. do 3 (split; [done|]).
  set (member := JSON_stringify (reduced_entry name e)) in *.
  unfold bind, cmd_ZREM, cmd_DEL, write, ret, ZREM, DEL in H. rewrite Hz in H.
  destruct (z0 !! member) eqn:Hm; cbn [db trace] in H; injection H as <-; cbn [db].
  - split; [apply lookup_delete_eq|]. split.
    + unfold zset_at. rewrite lookup_delete_ne by (symmetry; apply ranking_ne_player).
      apply zset_at_put.
    + intros k Hk1 Hk2. rewrite lookup_delete_ne by done. by apply lookup_put_ne.
  - split; [apply lookup_delete_eq|]. split.
    + unfold zset_at. rewrite lookup_delete_ne by (symmetry; apply ranking_ne_player).
      fold (zset_at (db w) (ranking_key mode)). by rewrite Hz, delete_id.
    + intros k Hk1 Hk2. by rewrite lookup_delete_ne.
Qed.



(** X10: after a successful DELETE of a player's score, the player's next
    submission is accepted whatever its efficiency. *)
Theorem submit_after_delete_is_accepted (env authHeader : option string) (resetAll : bool)
    (mode name : string) (e : jsval) (w w' : world)
    (today : string) (score : Z) (accuracy : Z * nat) (efficiency : Z) :
  handle_admin (delete_request env authHeader resetAll mode name e) w = (ScoreDeleted, w') ->
  exists rank w'',
    handle (submit today mode name score accuracy efficiency) w' = (Updated rank, w'').
Proof.
  intros H.
  apply delete_done in H as (e0 & z0 & _ & _ & _ & Hp & Hz & _).
  pose proof (submit_accepted today mode name score accuracy efficiency w' None None _
                ltac:(by unfold GET; rewrite Hp) eq_refl Hz) as Hwp.
  apply wp_elim in Hwp as (r & w'' & Hrun & -> & _).
  eexists _, w''. unfold handle. by rewrite Hrun.
Qed.

Lemma submit_after_delete_is_accepted_witness :
  exists rank w'',
    handle (submit "2025/1/2" "flick" "Alice" 900 (90, 0%nat) 10)
           (handle_admin (delete_request None (Some "Bearer hiro0419") false "flick" "Alice"
                            (Some (JStr "80"))) w_alice).2
    = (Updated rank, w'').
Proof.
  apply (submit_after_delete_is_accepted None (Some "Bearer hiro0419") false "flick" "Alice"
           (Some (JStr "80")) w_alice).
  vm_compute; reflexivity.
Defined.

(** ** PUT *)


Lemma edit_done (env authHeader : option string) (today mode oldName : string)
    (oldEfficiency : jsval) (newName : string) (newScore : option Z)
    (newAccuracy : option (Z * nat)) (newEfficiency : option Z) (w w' : world) :
  handle_admin (edit_request env authHeader today mode oldName oldEfficiency newName
                  newScore newAccuracy newEfficiency) w = (ScoreUpdated, w') ->
  exists oldE score accuracy efficiency z0,
    oldEfficiency = Some oldE /\ newScore = Some score /\ newAccuracy = Some accuracy
    /\ newEfficiency = Some efficiency
    /\ zset_at (db w) (ranking_key mode) = Some z0
    /\ let new := JSON_stringify (scoreData newName score accuracy efficiency today) in
       edited mode oldName newName new
         (zset_trimmed (<[new := Int efficiency]>
                          (delete (JSON_stringify (reduced_entry oldName oldE)) z0)))
         w w'.
Proof.
  unfold handle_admin, edit_request. intros H.
  destruct (authorized env authHeader); [|discriminate H]. cbn [negb] in H.
  destruct oldEfficiency as [oldE|], newScore as [score|], newAccuracy as [accuracy|],
    newEfficiency as [efficiency|]; try discriminate H.
  destruct (is_empty mode || is_empty oldName || is_empty newName); [discriminate H|].
  destruct (zset_at (db w) (ranking_key mode)) as [z0|] eqn:Hz.
  2:{ unfold bind, cmd_ZREM, write, ZREM in H. rewrite Hz in H. discriminate H. }
  exists oldE, score, accuracy, efficiency, z0. do 5 (split; [done|]). cbv zeta.
  set (new := JSON_stringify (scoreData newName score accuracy efficiency today)) in *.
  set (old := JSON_stringify (reduced_entry oldName oldE)) in *.
  set (z2 := <[new := Int efficiency]> (delete old z0)).
  assert (Hwp : wp (let! _ := cmd_ZREM (ranking_key mode) old in
                    let! _ := cmd_ZADD (ranking_key mode) efficiency new in
                    let! _ := (if String.eqb oldName newName then ret 0
                               else cmd_DEL (player_key mode oldName)) in
                    let! _ := cmd_SET (player_key mode newName) new in
                    let! currentCount := cmd_ZCARD (ranking_key mode) in
                    let! _ := (if currentCount >? 50
                               then cmd_ZREMRANGEBYRANK (ranking_key mode) 50 (-1)
                               else ret 0) in
                    ret ScoreUpdated) w
                 (fun _ w1 => edited mode oldName newName new (zset_trimmed z2) w w1)).
  { apply wp_bind. eapply wp_ZREM; [exact Hz|]. intros _ st1 Hz1 Hf1.
    apply wp_bind. eapply wp_ZADD; [exact Hz1|]. intros _. cbn [db trace].
    set (st2 := <[ranking_key mode := RZSet z2]> st1).
    apply wp_bind.
    assert (Hdel : forall tr Q,
      (forall n st tr', st !! ranking_key mode = Some (RZSet z2) ->
         (oldName <> newName -> st !! player_key mode oldName = None) ->
         (forall k, k <> ranking_key mode -> k <> player_key mode oldName ->
                    st !! k = db w !! k) ->
         Q n (World st tr')) ->
      wp (if String.eqb oldName newName then ret 0 else cmd_DEL (player_key mode oldName))
         (World st2 tr) Q).
    { intros tr Q HQ. destruct (String.eqb_spec oldName newName) as [Heq|Hne].
      - apply wp_ret. apply HQ; [by unfold st2; rewrite lookup_insert_eq|done|].
        intros k Hk1 Hk2. unfold st2. rewrite lookup_insert_ne by done. by apply Hf1.
      - eapply wp_write; [reflexivity|]. cbn [db trace]. apply HQ.
        + rewrite lookup_delete_ne by (symmetry; apply ranking_ne_player).
          by unfold st2; rewrite lookup_insert_eq.
        + intros _. apply lookup_delete_eq.
        + intros k Hk1 Hk2. rewrite lookup_delete_ne by done. unfold st2.
          rewrite lookup_insert_ne by done. by apply Hf1. }
    apply Hdel. clear Hdel. intros _ st3 tr3 Hk3 Hold3 Hf3.
    apply wp_bind. apply wp_SET. cbn [db trace].
    set (st4 := <[player_key mode newName := RString new]> st3).
    assert (Hz4 : zset_at st4 (ranking_key mode) = Some z2).
    { unfold zset_at, st4. rewrite lookup_insert_ne by (symmetry; apply ranking_ne_player).
      by rewrite Hk3. }
    apply wp_bind. eapply wp_ZCARD; [exact Hz4|].
    apply wp_bind.
    assert (Htrim : forall tr Q,
      (forall n st tr', zset_at st (ranking_key mode) = Some (zset_trimmed z2) ->
         (forall k, k <> ranking_key mode -> st !! k = st4 !! k) ->
         Q n (World st tr')) ->
      wp (if Z.of_nat (size z2) >? 50 then cmd_ZREMRANGEBYRANK (ranking_key mode) 50 (-1)
          else ret 0) (World st4 tr) Q).
    { intros tr Q HQ. unfold zset_trimmed in HQ. destruct (_ >? 50).
      - eapply wp_ZREMRANGEBYRANK; [exact Hz4|]. intros n st H1 H2.
        apply HQ; [exact H1|exact H2].
      - apply wp_ret. by apply HQ. }
    apply Htrim. clear Htrim. intros _ st5 tr5 Hz5 Hf5.
    apply wp_ret. split; cbn [db].
    - done.
    - rewrite Hf5 by (symmetry; apply ranking_ne_player). unfold st4.
      by rewrite lookup_insert_eq.
    - intros Hne. rewrite Hf5 by (symmetry; apply ranking_ne_player). unfold st4.
      rewrite lookup_insert_ne; [by apply Hold3|]. unfold player_key. intros Heq.
      apply (inj (String.append _)), (inj (String.append _)), (inj (String.append _)) in Heq.
      congruence.
    - intros k Hk1 Hk2 Hk3'. rewrite Hf5 by done. unfold st4.
      rewrite lookup_insert_ne by done. by apply Hf3. }
  apply wp_elim in Hwp as (a & w1 & Hrun & Hed). rewrite Hrun in H.
  injection H as _ <-. exact Hed.
Qed.

(** X11: a successful PUT leaves at most 50 members in the mode's ranking,
    and if no ranking of the store held more than 50 before, none does
    after. *)
Theorem edit_at_most_50 (env authHeader : option string) (today mode oldName : string)
    (oldEfficiency : jsval) (newName : string) (newScore : option Z)
    (newAccuracy : option (Z * nat)) (newEfficiency : option Z) (w w' : world) :
  handle_admin (edit_request env authHeader today mode oldName oldEfficiency newName
                  newScore newAccuracy newEfficiency) w = (ScoreUpdated, w') ->
  (forall z, db w' !! ranking_key mode = Some (RZSet z) -> (size z <= 50)%nat)
  /\ (bounded (db w) = true -> bounded (db w') = true).
Proof.
  intros H. apply edit_done in H as (oldE & score & acc & eff & z0 & _ & _ & _ & _ & _ & Hed).
  cbv zeta in Hed. destruct Hed as [Hz Hnew Hold Hf].
  assert (Hkey : forall z, db w' !! ranking_key mode = Some (RZSet z) -> (size z <= 50)%nat).
  { intros z Hk. unfold zset_at in Hz. rewrite Hk in Hz. injection Hz as ->.
    apply size_trimmed. }
  split; [done|]. rewrite !bounded_spec. intros Hb k z Hk.
  destruct (decide (k = ranking_key mode)) as [->|Hne1]; [by apply Hkey|].
  destruct (decide (k = player_key mode newName)) as [->|Hne2]; [congruence|].
  destruct (decide (k = player_key mode oldName)) as [->|Hne3].
  - destruct (decide (oldName = newName)) as [->|Hne]; [done|].
    rewrite Hold in Hk by done. discriminate.
  - rewrite Hf in Hk by done. eauto.
Qed.

Lemma edit_at_most_50_witness :
  let w' := (handle_admin (edit_request None (Some "Bearer hiro0419") "2025/2/1" "tracking"
                             "p1" (Some (JInt 1)) "zed" (Some 5000) (Some (99, 0%nat))
                             (Some 77)) (w_players 50)).2 in
  (forall z, db w' !! ranking_key "tracking" = Some (RZSet z) -> (size z <= 50)%nat)
  /\ (bounded (db (w_players 50)) = true -> bounded (db w') = true).
Proof.
  apply (edit_at_most_50 None (Some "Bearer hiro0419") "2025/2/1" "tracking" "p1"
           (Some (JInt 1)) "zed" (Some 5000) (Some (99, 0%nat)) (Some 77) (w_players 50)).
  assert (H : (handle_admin (edit_request None (Some "Bearer hiro0419") "2025/2/1" "tracking"
                               "p1" (Some (JInt 1)) "zed" (Some 5000) (Some (99, 0%nat))
                               (Some 77)) (w_players 50)).1 = ScoreUpdated)
    by (vm_compute; reflexivity).
  destruct (handle_admin _ _) as [r w1]. simpl in *. by rewrite H.
Defined.





(** ** GET and the reset *)

Lemma writes_read (tr : list command) (c : command) :
  is_write c = false -> writes (tr ++ [c]) = writes tr.
Proof.
  intros H. unfold writes. rewrite filter_app, filter_cons_False by (rewrite H; discriminate).
  by rewrite filter_nil, app_nil_r.
Qed.

Lemma quiet_ret {A} (a : A) : quiet (ret a).
Proof. by intros w. Qed.

Lemma quiet_read {A} (c : command) (f : store -> option A) :
  is_write c = false -> quiet (read c f).
Proof. intros H w. unfold read. cbn [snd db trace]. split; [done|by apply writes_read]. Qed.

Lemma quiet_bind {A B} (m : M A) (k : A -> M B) :
  quiet m -> (forall a, quiet (k a)) -> quiet (bind m k).
Proof.
  intros Hm Hk w. unfold bind. specialize (Hm w).
  destruct (m w) as [[a|] w1]; cbn [snd] in *; [|done].
  destruct (Hk a w1) as [-> ->]. done.
Qed.

Lemma quiet_if {A} (b : bool) (m1 m2 : M A) :
  quiet m1 -> quiet m2 -> quiet (if b then m1 else m2).
Proof. by destruct b. Qed.

(** GET never writes. *)
Lemma fetch_reads_only (mode : string) : quiet (fetch mode).
Proof.
  unfold fetch, cmd_ZREVRANGE, cmd_EXISTS, cmd_ZCARD, cmd_ZRANGE.
  repeat first [ apply quiet_bind; [|intros ?] | apply quiet_if | apply quiet_ret
               | apply quiet_read; reflexivity ].
Qed.



(** X15: after a reset of all rankings, GET answers the empty list for
    every mode, the default one included. *)
Theorem fetch_after_reset_is_empty (w : world) (mode : string) :
  mode ∈ [EmptyString; "flick"; "tracking"; "grid"] ->
  exists w1 w2,
    handle reset_all w = (ResetDone (existing_keys (db w) (ranking_key <$> modes)), w1)
    /\ handle (fetch mode) w1 = (Rankings [], w2).
Proof.
  intros Hmode.
  assert (Hnd : NoDup (ranking_key <$> modes)).
  { apply (bool_decide_unpack _). by vm_compute. }
  destruct (reset_loop_spec modes Hnd [] w) as (w1 & tr & Hrun & _ & _ & Hin & _).
  assert (Hkey : db w1 !! ranking_key (if is_empty mode then "flick" else mode) = None).
  { apply Hin. unfold modes.
    repeat (apply elem_of_cons in Hmode as [->|Hmode]; [cbn; set_solver|]).
    by apply elem_of_nil in Hmode. }
  destruct (fetch_spec mode w1 ∅) as (w2 & Hf & _).
  { unfold zset_at. by rewrite Hkey. }
  exists w1, w2. unfold handle, reset_all, bind. rewrite Hrun, Hf. done.
Qed.

Lemma fetch_after_reset_is_empty_witness :
  exists w1 w2,
    handle reset_all w_alice
    = (ResetDone (existing_keys (db w_alice) (ranking_key <$> modes)), w1)
    /\ handle (fetch "flick") w1 = (Rankings [], w2).
Proof.
  apply (fetch_after_reset_is_empty w_alice "flick").
  set_solver.
Defined.



(** ** The loop of the earlier revisions *)

Lemma parse_scores_v1_even (scores : list string) :
  Nat.even (length scores) = true -> parse_scores_v1 scores = parse_scores scores.
Proof.
  induction scores as [|x|x y l IH] using pair_ind; [done..|].
  cbn [length]. rewrite Nat.even_succ_succ. intros H. cbn [parse_scores_v1 parse_scores].
  by rewrite IH.
Qed.

(** X17: on a reply of odd length the loop of the earlier revisions returns
    one more entry than the loop of the latest one: the unpaired last
    element, parsed with an undefined score, whose efficiency is NaN. *)
Theorem old_loop_keeps_the_unpaired_element (scores : list string) :
  Nat.odd (length scores) = true ->
  exists dataStr,
    last scores = Some dataStr
    /\ parse_scores_v1 scores = parse_scores scores ++ [parse_entry dataStr "undefined"]
    /\ r_efficiency (parse_entry dataStr "undefined") = None.
Proof.
  induction scores as [|x|x y l IH] using pair_ind; [done| |].
  - intros _. exists x. split; [done|]. split; [done|].
    by rewrite parse_entry_efficiency.
  - cbn [length]. rewrite Nat.odd_succ_succ. intros H.
    destruct (IH H) as (d & Hl & Hp & He). exists d. split; [|split; [|done]].
    + destruct l; [discriminate|]. done.
    + cbn [parse_scores_v1 parse_scores]. by rewrite Hp.
Qed.

Lemma old_loop_keeps_the_unpaired_element_witness :
  exists dataStr,
    last ["Alice"; "80"; "Bob"] = Some dataStr
    /\ parse_scores_v1 ["Alice"; "80"; "Bob"]
       = parse_scores ["Alice"; "80"; "Bob"] ++ [parse_entry dataStr "undefined"]
    /\ r_efficiency (parse_entry dataStr "undefined") = None.
Proof.
  apply (old_loop_keeps_the_unpaired_element ["Alice"; "80"; "Bob"]). reflexivity.
Defined.
